(** * Zenless Collector: the code extraction and filtering pipeline

    A shallow embedding of [Main.py]: [parse_date], the two compiled
    patterns [code_pattern] and [poly_pattern], the row loop, the
    duplicate removal and the sort of [fetch_codes], the cache functions
    [load_cache] and [save_cache], and the body of the "Fetch Codes"
    button.

    Modelling choices.
    - A Python [str] is a [string].  Case mapping, whitespace, digits and
      word characters are those of the ASCII range; the one non-ASCII
      literal of the script (the placeholder-dash marker of [parse_date])
      is kept as the UTF-8 bytes the source file holds.
    - Python integers are [Z].
    - A Python [dict] is an association list in insertion order with
      distinct keys, since the order of [final_codes.items()] decides the
      order of equal rewards after the stable sort.
    - Exceptions are values of a small error monad [exc]; a [try] with
      an [except] is a match on the outcome.
    - The collaborators the script calls into (requests, BeautifulSoup,
      the file system, json) are represented by what they hand back: the
      outcome of the GET request, the cell texts of the selected table
      rows, and the state of the cache file. *)

From Stdlib Require Import String Ascii List ZArith Lia Bool Arith.
From Stdlib Require Import Sorting.Sorted Sorting.Permutation.
Import ListNotations.

Local Open Scope string_scope.
Local Open Scope Z_scope.

(** ** Exceptions *)

Inductive exn : Type :=
| ValueError
| RequestException
| HTTPError
| FileNotFoundError
| JSONDecodeError.

Inductive exc (A : Type) : Type :=
| Ok (a : A)
| Raise (e : exn).

Arguments Ok {A} a.
Arguments Raise {A} e.

Definition bind {A B : Type} (m : exc A) (f : A -> exc B) : exc B :=
  match m with
  | Ok a => f a
  | Raise e => Raise e
  end.

Notation "x <- m ;; k" := (bind m (fun x => k))
  (at level 61, m at next level, right associativity).

(** ** Text primitives *)

Module Text.

Definition code (c : ascii) : nat := nat_of_ascii c.

Definition between (lo hi : nat) (c : ascii) : bool :=
  (lo <=? code c)%nat && (code c <=? hi)%nat.

Definition is_upper : ascii -> bool := between 65 90.
Definition is_lower : ascii -> bool := between 97 122.
Definition is_digit : ascii -> bool := between 48 57.

(** [str.isspace] and the class [\s]: tab, newline, vertical tab, form
    feed, carriage return, the four separators 0x1c..0x1f and space. *)
Definition is_space (c : ascii) : bool :=
  between 9 13 c || between 28 32 c.

(** The class [\w]. *)
Definition is_word (c : ascii) : bool :=
  is_upper c || is_lower c || is_digit c || (code c =? 95)%nat.

Definition lower_char (c : ascii) : ascii :=
  if is_upper c then ascii_of_nat (code c + 32) else c.

Definition upper_char (c : ascii) : ascii :=
  if is_lower c then ascii_of_nat (code c - 32) else c.

Fixpoint lower (s : string) : string :=
  match s with
  | EmptyString => EmptyString
  | String c s' => String (lower_char c) (lower s')
  end.

Fixpoint upper (s : string) : string :=
  match s with
  | EmptyString => EmptyString
  | String c s' => String (upper_char c) (upper s')
  end.

Fixpoint starts_with (p s : string) : bool :=
  match p, s with
  | EmptyString, _ => true
  | String a p', String b s' => Ascii.eqb a b && starts_with p' s'
  | String _ _, EmptyString => false
  end.

(** [needle in hay]. *)
Fixpoint contains (needle hay : string) : bool :=
  starts_with needle hay ||
  match hay with
  | EmptyString => false
  | String _ hay' => contains needle hay'
  end.

Fixpoint lstrip (s : string) : string :=
  match s with
  | EmptyString => EmptyString
  | String c s' => if is_space c then lstrip s' else s
  end.

Fixpoint rstrip (s : string) : string :=
  match s with
  | EmptyString => EmptyString
  | String c s' =>
      match rstrip s' with
      | EmptyString => if is_space c then EmptyString else String c EmptyString
      | t => String c t
      end
  end.

(** [s.strip()]. *)
Definition strip (s : string) : string := rstrip (lstrip s).

(** [int(s)] on a string of decimal digits, blanks around them ignored. *)
Fixpoint int_acc (acc : Z) (s : string) : Z :=
  match s with
  | EmptyString => acc
  | String c s' => int_acc (10 * acc + Z.of_nat (code c - 48)) s'
  end.

Definition int (s : string) : Z := int_acc 0 (strip s).

End Text.

(** ** [sorted] with a key

    Python's [sorted] is stable; the stable insertion sort below returns
    the same list as any stable sort by the same key. *)

Section Sorted.
Context {A : Type} (key : A -> Z).

Fixpoint insert_by (x : A) (l : list A) : list A :=
  match l with
  | [] => [x]
  | y :: l' => if key x <=? key y then x :: l else y :: insert_by x l'
  end.

Fixpoint sorted (l : list A) : list A :=
  match l with
  | [] => []
  | x :: l' => insert_by x (sorted l')
  end.

Definition key_le (a b : A) : Prop := key a <= key b.
End Sorted.

(** ** A backtracking matcher for the patterns the script compiles

    The fragment of [re] the script and [_strptime] need: character
    classes, sequence, ordered alternation, greedy bounded repetition of
    a class, named groups and the word boundary.  Alternatives are tried
    in order and repetitions give characters back one at a time, as the
    [re] engine does. *)

Module Re.
Import Text.

Inductive re : Type :=
| Eps
| Cls (p : ascii -> bool)
| Seq (r1 r2 : re)
| Alt (r1 r2 : re)
| Rep (p : ascii -> bool) (lo : nat) (hi : option nat)
| Grp (name : string) (r : re)
| Bnd.

Definition groups : Type := list (string * string).

Definition or_else {R : Type} (a : option R) (b : option R) : option R :=
  match a with
  | Some r => Some r
  | None => b
  end.

Definition hi_open (hi : option nat) : bool :=
  match hi with
  | Some O => false
  | _ => true
  end.

Definition hi_pred (hi : option nat) : option nat :=
  match hi with
  | Some n => Some (Nat.pred n)
  | None => None
  end.

(** Greedy [p{lo,hi}]: take one more character when allowed, and fall
    back to stopping here when the rest of the pattern fails. *)
Fixpoint rep {R : Type} (p : ascii -> bool) (lo : nat) (hi : option nat)
    (prev : option ascii) (s : string)
    (k : option ascii -> string -> option R) : option R :=
  let stop := if (lo =? 0)%nat then k prev s else None in
  match s with
  | EmptyString => stop
  | String c s' =>
      if hi_open hi && p c
      then or_else (rep p (Nat.pred lo) (hi_pred hi) (Some c) s' k) stop
      else stop
  end.

Definition word_at (c : option ascii) : bool :=
  match c with
  | Some a => is_word a
  | None => false
  end.

Definition head (s : string) : option ascii :=
  match s with
  | EmptyString => None
  | String c _ => Some c
  end.

Definition consumed (s s' : string) : string :=
  substring 0 (String.length s - String.length s') s.

Fixpoint exec {R : Type} (r : re) (prev : option ascii) (s : string)
    (g : groups) (k : option ascii -> string -> groups -> option R)
    : option R :=
  match r with
  | Eps => k prev s g
  | Cls p =>
      match s with
      | String c s' => if p c then k (Some c) s' g else None
      | EmptyString => None
      end
  | Seq r1 r2 =>
      exec r1 prev s g (fun prev' s' g' => exec r2 prev' s' g' k)
  | Alt r1 r2 =>
      or_else (exec r1 prev s g k) (exec r2 prev s g k)
  | Rep p lo hi =>
      rep p lo hi prev s (fun prev' s' => k prev' s' g)
  | Grp name r1 =>
      exec r1 prev s g
        (fun prev' s' g' => k prev' s' ((name, consumed s s') :: g'))
  | Bnd =>
      if xorb (word_at prev) (word_at (head s)) then k prev s g else None
  end.

(** A match found at a position: the text left after it and its groups. *)
Definition match_at (r : re) (prev : option ascii) (s : string)
    : option (string * groups) :=
  exec r prev s [] (fun _ s' g => Some (s', g)).

(** [pattern.match(s)]. *)
Definition re_match (r : re) (s : string) : option (string * groups) :=
  match_at r None s.

(** [pattern.search(s)]: the match at the leftmost position that has
    one; the result is the matched text and the groups. *)
Fixpoint search_from (r : re) (prev : option ascii) (s : string)
    : option (string * groups) :=
  match match_at r prev s with
  | Some (s', g) => Some (consumed s s', g)
  | None =>
      match s with
      | EmptyString => None
      | String c s' => search_from r (Some c) s'
      end
  end.

Definition search (r : re) (s : string) : option (string * groups) :=
  search_from r None s.

(** [pattern.sub("", s)] for a pattern that matches no empty text: the
    characters of each match, found left to right, are dropped.  [skip]
    counts the characters of the current match still to drop. *)
Fixpoint sub_from (r : re) (skip : nat) (prev : option ascii) (s : string)
    : string :=
  match s with
  | EmptyString => EmptyString
  | String c s' =>
      match skip with
      | S n => sub_from r n (Some c) s'
      | O =>
          match match_at r prev s with
          | Some (rest, _) =>
              sub_from r (String.length s' - String.length rest) (Some c) s'
          | None => String c (sub_from r O (Some c) s')
          end
      end
  end.

Definition sub_empty (r : re) (s : string) : string := sub_from r 0 None s.

Fixpoint group (name : string) (g : groups) : option string :=
  match g with
  | [] => None
  | (n, v) :: g' => if String.eqb n name then Some v else group name g'
  end.

(** Pattern syntax. *)
Definition chr (c : ascii) : re := Cls (Ascii.eqb c).

(** A literal character under [re.IGNORECASE]. *)
Definition chr_i (c : ascii) : re :=
  Cls (fun x => Ascii.eqb (lower_char x) (lower_char c)).

Fixpoint lit_i (s : string) : re :=
  match s with
  | EmptyString => Eps
  | String c s' => Seq (chr_i c) (lit_i s')
  end.

Definition opt (r : re) : re := Alt r Eps.

Fixpoint alts (rs : list re) : re :=
  match rs with
  | [] => Cls (fun _ => false)
  | [r] => r
  | r :: rs' => Alt r (alts rs')
  end.

End Re.

(** ** Calendar dates *)

Record date : Type := mkdate { year : Z; month : Z; day : Z }.

Definition is_leap (y : Z) : bool :=
  (y mod 4 =? 0) && (negb (y mod 100 =? 0) || (y mod 400 =? 0)).

Definition days_in_month (y m : Z) : Z :=
  if m =? 2 then (if is_leap y then 29 else 28)
  else if (m =? 4) || (m =? 6) || (m =? 9) || (m =? 11) then 30
  else 31.

(** [datetime.date(y, m, d)]: out-of-range fields raise [ValueError]. *)
Definition date_new (y m d : Z) : exc date :=
  if (1 <=? y) && (y <=? 9999) && (1 <=? m) && (m <=? 12)
     && (1 <=? d) && (d <=? days_in_month y m)
  then Ok (mkdate y m d)
  else Raise ValueError.

(** [a < b] on dates: year, then month, then day. *)
Definition date_ltb (a b : date) : bool :=
  (year a <? year b)
  || ((year a =? year b)
      && ((month a <? month b)
          || ((month a =? month b) && (day a <? day b)))).

Definition date_lt (a b : date) : Prop := date_ltb a b = true.

(** ** [datetime.strptime] for the directives of [date_formats] *)

Module Strptime.
Import Text Re.

Definition in_range (lo hi : ascii) : ascii -> bool :=
  between (code lo) (code hi).

Definition f_month : list string :=
  [""; "january"; "february"; "march"; "april"; "may"; "june"; "july";
   "august"; "september"; "october"; "november"; "december"].

Definition a_month : list string :=
  [""; "jan"; "feb"; "mar"; "apr"; "may"; "jun"; "jul"; "aug"; "sep";
   "oct"; "nov"; "dec"].

(** [__seqToRE]: the values from longest to shortest, as alternatives of
    one named group. *)
Definition seqToRE (to_convert : list string) (directive : string) : re :=
  Grp directive
    (alts (map lit_i
             (sorted (fun v => - Z.of_nat (String.length v)) to_convert))).

(** The regular expression of one directive. *)
Definition directive_re (d : ascii) : re :=
  if Ascii.eqb d "d" then
    (* (?P<d>3[0-1]|[1-2]\d|0[1-9]|[1-9]| [1-9]) *)
    Grp "d" (alts [Seq (chr "3") (Cls (in_range "0" "1"));
                   Seq (Cls (in_range "1" "2")) (Cls is_digit);
                   Seq (chr "0") (Cls (in_range "1" "9"));
                   Cls (in_range "1" "9");
                   Seq (chr " ") (Cls (in_range "1" "9"))])
  else if Ascii.eqb d "m" then
    (* (?P<m>1[0-2]|0[1-9]|[1-9]) *)
    Grp "m" (alts [Seq (chr "1") (Cls (in_range "0" "2"));
                   Seq (chr "0") (Cls (in_range "1" "9"));
                   Cls (in_range "1" "9")])
  else if Ascii.eqb d "Y" then
    (* (?P<Y>\d\d\d\d) *)
    Grp "Y" (Seq (Cls is_digit)
               (Seq (Cls is_digit) (Seq (Cls is_digit) (Cls is_digit))))
  else if Ascii.eqb d "B" then seqToRE (tl f_month) "B"
  else if Ascii.eqb d "b" then seqToRE (tl a_month) "b"
  else Cls (fun _ => false).

(** [TimeRE.pattern]: a run of whitespace in the format becomes [\s+], a
    directive its regular expression, any other character itself. *)
Fixpoint pattern (fmt : string) : re :=
  match fmt with
  | EmptyString => Eps
  | String "%" (String d rest) => Seq (directive_re d) (pattern rest)
  | String c rest =>
      if is_space c then
        match rest with
        | String c' _ =>
            if is_space c' then pattern rest
            else Seq (Rep is_space 1 None) (pattern rest)
        | EmptyString => Rep is_space 1 None
        end
      else Seq (chr_i c) (pattern rest)
  end.

(** [list.index]. *)
Fixpoint index_from (i : Z) (x : string) (l : list string) : option Z :=
  match l with
  | [] => None
  | y :: l' => if String.eqb x y then Some i else index_from (i + 1) x l'
  end.

Definition index (x : string) (l : list string) : option Z :=
  index_from 0 x l.

Definition field (name : string) (g : groups) (default : Z) : Z :=
  match group name g with
  | Some v => int v
  | None => default
  end.

Definition month_field (g : groups) : Z :=
  match group "m" g, group "B" g, group "b" g with
  | Some v, _, _ => int v
  | None, Some v, _ =>
      match index (lower v) f_month with Some i => i | None => 1 end
  | None, None, Some v =>
      match index (lower v) a_month with Some i => i | None => 1 end
  | None, None, None => 1
  end.

(** [datetime.strptime(data, fmt).date()]: the compiled format must match
    at the start and leave nothing unconverted, and the fields must make
    a calendar date. *)
Definition strptime (data fmt : string) : exc date :=
  match re_match (pattern fmt) data with
  | None => Raise ValueError
  | Some (rest, g) =>
      if negb (String.eqb rest "") then Raise ValueError
      else date_new (field "Y" g 1900) (month_field g) (field "d" g 1)
  end.

End Strptime.

(** ** Constants of the script *)

Import Text Re.

(** [\b[A-Z0-9]{6,24}\b] *)
Definition code_pattern : re :=
  Seq Bnd
    (Seq (Rep (fun c => is_upper c || is_digit c) 6 (Some 24%nat)) Bnd).

(** [(\d{1,4})\s*Polychrome[s]?] with [re.IGNORECASE] *)
Definition poly_pattern : re :=
  Seq (Grp "1" (Rep is_digit 1 (Some 4%nat)))
    (Seq (Rep is_space 0 None)
       (Seq (lit_i "Polychrome") (opt (chr_i "s")))).

Definition date_formats : list string :=
  ["%B %d, %Y"; "%b %d, %Y"; "%Y-%m-%d"].

(** ** [parse_date] *)

(** What [parse_date] returns: [None], the string ["EXPIRED"], or a date. *)
Inductive expiry : Type :=
| NoExpiry
| Expired
| OnDate (d : date).

(** The markers of the second test; the third is the placeholder dash as
    the source file spells it. *)
Definition no_expiry_markers : list string :=
  ["no expiry"; "none"; "â€”"; "-"; "tbd"; "unknown"].

(** [\[\d+\]] *)
Definition footnote_pattern : re :=
  Seq (chr "[") (Seq (Rep is_digit 1 None) (chr "]")).

(** The loop over [date_formats]: the first format that parses wins, a
    format that raises is skipped. *)
Fixpoint try_formats (txt_clean : string) (fmts : list string) : expiry :=
  match fmts with
  | [] => NoExpiry
  | fmt :: fmts' =>
      match Strptime.strptime txt_clean fmt with
      | Ok d => OnDate d
      | Raise _ => try_formats txt_clean fmts'
      end
  end.

Definition parse_date (txt : string) : expiry :=
  if String.eqb txt "" then NoExpiry
  else
    let txt_low := lower txt in
    if contains "expired" txt_low then Expired
    else if existsb (fun x => contains x txt_low) no_expiry_markers
    then NoExpiry
    else
      let txt_clean := strip (sub_empty footnote_pattern txt) in
      try_formats txt_clean date_formats.

(** ** The row loop of [fetch_codes] *)

(** A table row: the texts of its [td] cells, as [get_text] returns them. *)
Definition row : Type := list string.

(** The parsed page: the rows [tbody tr] of the first [table.wikitable],
    or [None] when [select_one] finds no such table. *)
Record page : Type := mkpage { wikitable : option (list row) }.

Definition is_expired (e : expiry) : bool :=
  match e with
  | Expired => true
  | _ => false
  end.

(** [expiry is not None and expiry < today] *)
Definition before (today : date) (e : expiry) : bool :=
  match e with
  | OnDate d => date_ltb d today
  | _ => false
  end.

(** [code_pattern.search(code_txt.upper())] and its [group(0)]. *)
Definition match_code (code_txt : string) : option string :=
  match search code_pattern (upper code_txt) with
  | Some (code, _) => Some code
  | None => None
  end.

(** [poly_pattern.search(reward_txt)] and [int] of its [group(1)]. *)
Definition find_poly (reward_txt : string) : option Z :=
  match search poly_pattern reward_txt with
  | Some (_, g) =>
      Some (match group "1" g with Some v => int v | None => 0 end)
  | None => None
  end.

(** One pass of the loop body: [None] when the row is skipped, otherwise
    the values of [code], [expiry] and [poly] at the [append].  The
    [isinstance(expiry, datetime)] step changes nothing: [parse_date]
    hands back a date already. *)
Definition row_fields (today : date) (cells : row)
    : option (string * expiry * Z) :=
  match cells with
  | [] => None
  | code_txt :: _ =>
      let reward_txt := nth 1 cells "" in
      let expiry_txt := nth 2 cells "" in
      match match_code code_txt with
      | None => None
      | Some code =>
          let expiry := parse_date expiry_txt in
          if is_expired expiry then None
          else if before today expiry then None
          else
            match find_poly reward_txt with
            | None => None
            | Some poly =>
                if 0 <? poly then Some (code, expiry, poly) else None
            end
      end
  end.

(** What the row appends to [codes]. *)
Definition process_row (today : date) (cells : row) : option (string * Z) :=
  match row_fields today cells with
  | Some (code, _, poly) => Some (code, poly)
  | None => None
  end.

(** The list [codes] after the loop. *)
Fixpoint collect (today : date) (rows : list row) : list (string * Z) :=
  match rows with
  | [] => []
  | cells :: rows' =>
      match process_row today cells with
      | Some cp => cp :: collect today rows'
      | None => collect today rows'
      end
  end.

(** ** Dictionaries *)

Definition dict : Type := list (string * Z).

Fixpoint dict_get (d : dict) (k : string) : option Z :=
  match d with
  | [] => None
  | (k', v) :: d' => if String.eqb k' k then Some v else dict_get d' k
  end.

(** [k in d] *)
Definition dict_mem (d : dict) (k : string) : bool :=
  match dict_get d k with
  | Some _ => true
  | None => false
  end.

(** [d[k] = v]: an existing key keeps its place, a new one goes last. *)
Fixpoint dict_set (d : dict) (k : string) (v : Z) : dict :=
  match d with
  | [] => [(k, v)]
  | (k', v') :: d' =>
      if String.eqb k' k then (k', v) :: d' else (k', v') :: dict_set d' k v
  end.

(** ** Removing duplicates and sorting *)

Definition keep_max (final_codes : dict) (cp : string * Z) : dict :=
  let (c, p) := cp in
  match dict_get final_codes c with
  | Some q => dict_set final_codes c (Z.max p q)
  | None => dict_set final_codes c p
  end.

(** [final_codes] after the second loop. *)
Definition remove_duplicates (codes : list (string * Z)) : dict :=
  fold_left keep_max codes [].

(** [sorted(final_codes.items(), key=lambda x: -x[1])] *)
Definition sort_desc (items : list (string * Z)) : list (string * Z) :=
  sorted (fun x => - snd x) items.

Definition aggregate (codes : list (string * Z)) : list (string * Z) :=
  sort_desc (remove_duplicates codes).

(** ** [fetch_codes] *)

(** What [requests.get] does: it raises, or hands back a response with a
    status code and a page. *)
Inductive get_outcome : Type :=
| TransportFailure
| Response (status_code : Z) (body : page).

Definition requests_get (o : get_outcome) : exc (Z * page) :=
  match o with
  | TransportFailure => Raise RequestException
  | Response st b => Ok (st, b)
  end.

(** [r.raise_for_status()] raises on the 4xx and 5xx codes. *)
Definition raise_for_status (r : Z * page) : exc unit :=
  if (400 <=? fst r) && (fst r <? 600) then Raise HTTPError else Ok tt.

Definition fetch_codes (today : date) (o : get_outcome)
    : exc (list (string * Z)) :=
  match (r <- requests_get o ;; _ <- raise_for_status r ;; Ok r) with
  | Raise _ => Ok []
  | Ok r =>
      match wikitable (snd r) with
      | None => Ok []
      | Some rows => Ok (aggregate (collect today rows))
      end
  end.

(** ** The cache *)

(** The cache file as [load_cache] meets it: not there, there with
    contents [json.load] rejects, or there holding a JSON object. *)
Inductive cache_file : Type :=
| Missing
| Unreadable
| Holding (data : dict).

Definition path_exists (f : cache_file) : bool :=
  match f with
  | Missing => false
  | _ => true
  end.

Definition json_load (f : cache_file) : exc dict :=
  match f with
  | Holding data => Ok data
  | Unreadable => Raise JSONDecodeError
  | Missing => Raise FileNotFoundError
  end.

Definition load_cache (f : cache_file) : exc dict :=
  if path_exists f then json_load f else Ok [].

Definition save_cache (data : dict) : cache_file := Holding data.

(** ** The "Fetch Codes" button *)

(** [[c for c,p in codes if c not in cached]] *)
Definition new_codes_of (codes : list (string * Z)) (cached : dict)
    : list string :=
  flat_map (fun cp => if dict_mem cached (fst cp) then [] else [fst cp])
    codes.

(** [{c:p for c,p in codes}] *)
Definition dict_of (codes : list (string * Z)) : dict :=
  fold_left (fun d cp => dict_set d (fst cp) (snd cp)) codes [].

(** What one press leaves behind: the fetched codes, the new codes and
    the cache file. *)
Record press : Type :=
  mkpress { codes_of : list (string * Z);
            new_codes : list string;
            file_after : cache_file }.

(** The lines after [fetch_codes()]: load, diff, save. *)
Definition diff_and_save (codes : list (string * Z)) (f : cache_file)
    : exc press :=
  cached <- load_cache f ;;
  let new := new_codes_of codes cached in
  let f' := save_cache (dict_of codes) in
  Ok (mkpress codes new f').

Definition on_fetch (today : date) (o : get_outcome) (f : cache_file)
    : exc press :=
  codes <- fetch_codes today o ;;
  diff_and_save codes f.

(** ** The display of the fetched codes *)

(** [sorted(l, key=key, reverse=True)]: the list is reversed, sorted and
    reversed again, which keeps elements of equal key in their order. *)
Definition sorted_reverse {A : Type} (key : A -> Z) (l : list A) : list A :=
  rev (sorted key (rev l)).

(** [sorted(codes, key=lambda x:x[1], reverse=(sort_order=="Descending"))] *)
Definition display (sort_order : string) (codes : list (string * Z))
    : list (string * Z) :=
  if String.eqb sort_order "Descending"
  then sorted_reverse snd codes
  else sorted snd codes.

(** The [key] arguments of the "Copy" buttons, one per displayed entry. *)
Definition copy_keys (sort_order : string) (codes : list (string * Z))
    : list string :=
  map fst (display sort_order codes).

(** ** Notions the properties are stated with *)

(** The first [n] characters of a text, and the text without them. *)
Fixpoint take (n : nat) (s : string) : string :=
  match n, s with
  | S n', String c s' => String c (take n' s')
  | _, _ => EmptyString
  end.

Fixpoint drop (n : nat) (s : string) : string :=
  match n, s with
  | S n', String _ s' => drop n' s'
  | _, _ => s
  end.

Fixpoint all_chars (p : ascii -> bool) (s : string) : bool :=
  match s with
  | EmptyString => true
  | String c s' => p c && all_chars p s'
  end.

(** The class [[A-Z0-9]] of [code_pattern]. *)
Definition is_code_char (c : ascii) : bool := is_upper c || is_digit c.

(** The upper bound of a repetition. *)
Definition within (hi : option nat) (n : nat) : Prop :=
  match hi with
  | Some h => (n <= h)%nat
  | None => True
  end.

(** A pattern without groups. *)
Fixpoint no_groups (r : re) : bool :=
  match r with
  | Seq r1 r2 | Alt r1 r2 => no_groups r1 && no_groups r2
  | Grp _ _ => false
  | _ => true
  end.

(** A date [datetime.date] accepts. *)
Definition valid_date (d : date) : Prop :=
  1 <= year d <= 9999 /\ 1 <= month d <= 12 /\
  1 <= day d <= days_in_month (year d) (month d).

(** The largest reward listed for a code, if the code is listed. *)
Fixpoint max_reward (c : string) (l : list (string * Z)) : option Z :=
  match l with
  | [] => None
  | (c', p) :: l' =>
      if String.eqb c' c
      then Some (match max_reward c l' with
                 | Some q => Z.max p q
                 | None => p
                 end)
      else max_reward c l'
  end.

Definition omax (a b : option Z) : option Z :=
  match a, b with
  | Some x, Some y => Some (Z.max x y)
  | Some x, None => Some x
  | None, _ => b
  end.

Definition add_key (seen : list string) (c : string) : list string :=
  if existsb (String.eqb c) seen then seen else (seen ++ [c])%list.

(** The distinct codes of a list, each at the place of its first
    occurrence. *)
Definition first_occurrences (cs : list string) : list string :=
  fold_left add_key cs [].

(** ** Sample inputs *)

Definition sample_today : date := mkdate 2026 11 3.

Definition future_row : row :=
  ["ABCDEF123"; "500 Polychrome"; "January 1, 2099"].

Definition sample_rows : list row :=
  [["ABCDEF123"; "500 Polychrome"; "January 1, 2099"];
   ["GHIJKL456"; "300 Polychromes"; "expired"]].

Definition today_row : row :=
  ["ABCDEF123"; "60 Polychromes"; "November 3, 2026"].

Definition zero_reward_row : row :=
  ["ABCDEF123"; "0 Polychrome"; "November 3, 2026"].

Definition cached_rows : list row :=
  [["AAAAAA"; "10 Polychrome"; ""]; ["BBBBBB"; "20 Polychrome"; ""]].

(** * Properties *)

(** ** Text *)

Lemma lower_app (a b : string) : lower (a ++ b) = lower a ++ lower b.
Proof.
  induction a as [|c a IH]; simpl; [reflexivity | now rewrite IH].
Qed.

Lemma starts_with_app (n b : string) : starts_with n (n ++ b) = true.
Proof.
  induction n as [|c n IH]; simpl; [reflexivity|].
  now rewrite Ascii.eqb_refl, IH.
Qed.

Lemma contains_here (n s : string) :
  starts_with n s = true -> contains n s = true.
Proof.
  intros H. destruct s; simpl; now rewrite H.
Qed.

Lemma contains_app (n a b : string) : contains n (a ++ n ++ b) = true.
Proof.
  induction a as [|c a IH]; simpl.
  - apply contains_here, starts_with_app.
  - rewrite IH. apply orb_true_r.
Qed.

(** ** [parse_date] *)

Lemma parse_date_expired_low (txt : string) :
  contains "expired" (lower txt) = true -> parse_date txt = Expired.
Proof.
  intros H. unfold parse_date.
  destruct (String.eqb_spec txt "") as [->|_]; [discriminate|].
  now rewrite H.
Qed.

(** A text with a hyphen never comes back as a date: it is [Expired] or
    it stops at the marker test. *)
Lemma parse_date_dash (txt : string) (d : date) :
  contains "-" (lower txt) = true -> parse_date txt <> OnDate d.
Proof.
  intros H. unfold parse_date.
  destruct (String.eqb txt ""); [discriminate|].
  destruct (contains "expired" (lower txt)); [discriminate|].
  unfold no_expiry_markers, existsb. rewrite H.
  rewrite !orb_true_r, ?orb_true_l. discriminate.
Qed.

(** C9. Every expiry text with a substring that reads "expired" in some
    letter case is classified [Expired], whatever stands before and after
    it (a no-expiry marker, a date that would parse). *)
Theorem parse_date_expired_any_case (pre mid post : string) :
  lower mid = "expired" -> parse_date (pre ++ mid ++ post) = Expired.
Proof.
  intros H. apply parse_date_expired_low.
  rewrite !lower_app, H. apply contains_app.
Qed.

Lemma parse_date_expired_any_case_witness :
  lower "ExPiReD" = "expired" /\
  parse_date ("no expiry - " ++ "ExPiReD" ++ " January 1, 2099") = Expired.
Proof.
  split; [reflexivity|].
  apply (parse_date_expired_any_case "no expiry - " "ExPiReD"
           " January 1, 2099").
  reflexivity.
Defined.

Lemma parse_date_dash_no_expiry (pre post : string) :
  contains "expired" (lower (pre ++ "-" ++ post)) = false ->
  parse_date (pre ++ "-" ++ post) = NoExpiry.
Proof.
  intros H. unfold parse_date.
  destruct (String.eqb (pre ++ "-" ++ post) ""); [reflexivity|].
  rewrite H.
  assert (Hd : contains "-" (lower (pre ++ "-" ++ post)) = true).
  { rewrite !lower_app. apply (contains_app "-"). }
  unfold no_expiry_markers, existsb. rewrite Hd.
  now rewrite !orb_true_r.
Qed.

(** C1. An ISO numeric date is not returned as a date.  The third format
    of [date_formats] parses "2099-01-01", but [parse_date] never gets to
    it: the hyphen is one of the no-expiry markers, so the text, with or
    without a footnote marker and trailing whitespace, comes back as
    [NoExpiry], and so does every text with a hyphen and without
    "expired". *)
Theorem parse_date_iso_is_no_expiry :
  Strptime.strptime "2099-01-01" "%Y-%m-%d" = Ok (mkdate 2099 1 1) /\
  contains "expired" (lower "2099-01-01") = false /\
  parse_date "2099-01-01" = NoExpiry /\
  parse_date "2099-01-01[1] " = NoExpiry /\
  (forall pre post,
     contains "expired" (lower (pre ++ "-" ++ post)) = false ->
     parse_date (pre ++ "-" ++ post) = NoExpiry).
Proof.
  split; [vm_compute; reflexivity|].
  split; [vm_compute; reflexivity|].
  split; [vm_compute; reflexivity|].
  split; [vm_compute; reflexivity|].
  apply parse_date_dash_no_expiry.
Qed.

(** ** Dictionaries *)

Lemma dict_get_set (d : dict) (k c : string) (v : Z) :
  dict_get (dict_set d k v) c =
  if String.eqb k c then Some v else dict_get d c.
Proof.
  induction d as [|[k' v'] d IH]; simpl.
  - reflexivity.
  - destruct (String.eqb_spec k' k) as [->|Hk]; simpl.
    + destruct (String.eqb k c); reflexivity.
    + rewrite IH. destruct (String.eqb_spec k' c) as [->|Hc].
      * destruct (String.eqb_spec k c); [congruence | reflexivity].
      * reflexivity.
Qed.

Lemma dict_get_none (d : dict) (k : string) :
  dict_get d k = None <-> ~ In k (map fst d).
Proof.
  induction d as [|[k' v'] d IH]; simpl.
  - tauto.
  - destruct (String.eqb_spec k' k) as [->|Hk].
    + split; [discriminate | tauto].
    + rewrite IH. tauto.
Qed.

Lemma dict_get_in (d : dict) (k : string) (v : Z) :
  dict_get d k = Some v -> In (k, v) d.
Proof.
  induction d as [|[k' v'] d IH]; simpl; [discriminate|].
  destruct (String.eqb_spec k' k) as [->|Hk].
  - intros [= ->]. now left.
  - intros H. right. now apply IH.
Qed.

Lemma in_dict_get (d : dict) (k : string) (v : Z) :
  NoDup (map fst d) -> In (k, v) d -> dict_get d k = Some v.
Proof.
  induction d as [|[k' v'] d IH]; simpl; [tauto|].
  intros Hnd [[= -> ->]|Hin].
  - now rewrite String.eqb_refl.
  - inversion Hnd as [|? ? Hk' Hnd']; subst.
    destruct (String.eqb_spec k' k) as [->|Hk].
    + exfalso. apply Hk'. apply (in_map fst) in Hin. exact Hin.
    + now apply IH.
Qed.

Lemma keys_set (d : dict) (k : string) (v : Z) :
  map fst (dict_set d k v) =
  if dict_mem d k then map fst d else (map fst d ++ [k])%list.
Proof.
  unfold dict_mem.
  induction d as [|[k' v'] d IH]; simpl; [reflexivity|].
  destruct (String.eqb_spec k' k) as [->|Hk]; simpl; [reflexivity|].
  rewrite IH. destruct (dict_get d k); reflexivity.
Qed.

Lemma nodup_set (d : dict) (k : string) (v : Z) :
  NoDup (map fst d) -> NoDup (map fst (dict_set d k v)).
Proof.
  intros Hnd. rewrite keys_set. unfold dict_mem.
  destruct (dict_get d k) eqn:E; [exact Hnd|].
  apply dict_get_none in E.
  apply NoDup_app; [exact Hnd | repeat constructor; simpl; tauto |].
  intros x Hx [<-|[]]. tauto.
Qed.

(** ** Removing duplicates *)

Lemma dict_get_keep_max (d : dict) (c' c : string) (p : Z) :
  dict_get (keep_max d (c', p)) c =
  if String.eqb c' c
  then Some (match dict_get d c' with Some q => Z.max p q | None => p end)
  else dict_get d c.
Proof.
  unfold keep_max. destruct (dict_get d c'); now rewrite dict_get_set.
Qed.

Lemma dict_get_fold (l : list (string * Z)) (d : dict) (c : string) :
  dict_get (fold_left keep_max l d) c = omax (dict_get d c) (max_reward c l).
Proof.
  revert d. induction l as [|[c' p] l IH]; intros d; cbn [fold_left max_reward].
  - destruct (dict_get d c); reflexivity.
  - rewrite IH, dict_get_keep_max.
    destruct (String.eqb_spec c' c) as [->|Hc]; [|reflexivity].
    destruct (dict_get d c), (max_reward c l); simpl; f_equal; lia.
Qed.

Lemma nodup_keep_max (d : dict) (cp : string * Z) :
  NoDup (map fst d) -> NoDup (map fst (keep_max d cp)).
Proof.
  destruct cp as [c p]. unfold keep_max.
  destruct (dict_get d c); apply nodup_set.
Qed.

Lemma nodup_fold (l : list (string * Z)) (d : dict) :
  NoDup (map fst d) -> NoDup (map fst (fold_left keep_max l d)).
Proof.
  revert d. induction l as [|cp l IH]; intros d Hd; simpl; [exact Hd|].
  apply IH, nodup_keep_max, Hd.
Qed.

Lemma nodup_remove_duplicates (codes : list (string * Z)) :
  NoDup (map fst (remove_duplicates codes)).
Proof.
  apply nodup_fold. constructor.
Qed.

Lemma max_reward_sound (c : string) (l : list (string * Z)) (p : Z) :
  max_reward c l = Some p ->
  In (c, p) l /\ forall q, In (c, q) l -> q <= p.
Proof.
  revert p. induction l as [|[c' p'] l IH]; intros p; simpl; [discriminate|].
  destruct (String.eqb_spec c' c) as [->|Hc].
  - destruct (max_reward c l) as [q|] eqn:E; intros [= <-].
    + destruct (IH q eq_refl) as [Hin Hmax]. split.
      * destruct (Z.max_spec p' q) as [[_ ->]|[_ ->]]; [now right | now left].
      * intros q' [[= <-]|Hq]; [lia|]. specialize (Hmax q' Hq). lia.
    + split; [now left|].
      intros q' [[= <-]|Hq]; [lia|].
      exfalso. clear IH. induction l as [|[c2 p2] l IHl]; [exact Hq|].
      simpl in E. destruct Hq as [[= -> ->]|Hq].
      * now rewrite String.eqb_refl in E.
      * destruct (String.eqb c2 c); [discriminate | now apply IHl].
  - intros H. destruct (IH p H) as [Hin Hmax]. split; [now right|].
    intros q [[= ? ?]|Hq]; [congruence | now apply Hmax].
Qed.

Lemma max_reward_listed (c : string) (l : list (string * Z)) (q : Z) :
  In (c, q) l -> exists p, max_reward c l = Some p.
Proof.
  induction l as [|[c' p'] l IH]; simpl; [tauto|].
  intros [[= -> ->]|Hq].
  - rewrite String.eqb_refl. eauto.
  - destruct (String.eqb c' c); eauto.
Qed.

Lemma max_reward_spec (c : string) (l : list (string * Z)) (p : Z) :
  max_reward c l = Some p <->
  In (c, p) l /\ forall q, In (c, q) l -> q <= p.
Proof.
  split; [apply max_reward_sound|].
  intros [Hin Hmax].
  destruct (max_reward_listed c l p Hin) as [p' E].
  destruct (max_reward_sound c l p' E) as [Hin' Hmax'].
  specialize (Hmax p' Hin'). specialize (Hmax' p Hin).
  rewrite E. f_equal. lia.
Qed.

Lemma remove_duplicates_spec (codes : list (string * Z)) (c : string) (p : Z) :
  In (c, p) (remove_duplicates codes) <-> max_reward c codes = Some p.
Proof.
  unfold remove_duplicates.
  pose proof (dict_get_fold codes [] c) as E. simpl in E.
  pose proof (nodup_remove_duplicates codes) as Hnd.
  unfold remove_duplicates in Hnd. split.
  - intros Hin. rewrite <- E. now apply in_dict_get.
  - intros H. apply dict_get_in. now rewrite E.
Qed.

(** ** [sorted] *)

Section SortedFacts.
Context {A : Type} (key : A -> Z).

Lemma insert_by_perm (x : A) (l : list A) :
  Permutation (insert_by key x l) (x :: l).
Proof.
  induction l as [|y l IH]; simpl; [reflexivity|].
  destruct (key x <=? key y); [reflexivity|].
  rewrite IH. apply perm_swap.
Qed.

Lemma sorted_perm (l : list A) : Permutation (sorted key l) l.
Proof.
  induction l as [|x l IH]; simpl; [reflexivity|].
  rewrite insert_by_perm. now constructor.
Qed.

Lemma insert_by_sorted (x : A) (l : list A) :
  StronglySorted (key_le key) l -> StronglySorted (key_le key) (insert_by key x l).
Proof.
  induction 1 as [|y l Hl IH Hy]; simpl.
  - repeat constructor.
  - destruct (Z.leb_spec (key x) (key y)) as [Hxy|Hxy].
    + constructor; [now constructor|].
      constructor; [exact Hxy|].
      eapply Forall_impl; [|exact Hy].
      unfold key_le. intros z Hz. lia.
    + constructor; [exact IH|].
      eapply Permutation_Forall; [symmetry; apply insert_by_perm|].
      constructor; [unfold key_le; lia | exact Hy].
Qed.

Lemma strongly_sorted_weaken (R S : A -> A -> Prop) (l : list A) :
  (forall a b, R a b -> S a b) -> StronglySorted R l -> StronglySorted S l.
Proof.
  intros HRS. induction 1 as [|x l Hl IH Hx]; constructor; [exact IH|].
  eapply Forall_impl; [|exact Hx]. intros b. apply HRS.
Qed.

Lemma sorted_sorted (l : list A) : StronglySorted (key_le key) (sorted key l).
Proof.
  induction l as [|x l IH]; simpl; [constructor|].
  now apply insert_by_sorted.
Qed.

(** Stability: the elements of one key keep the order they had. *)
Lemma filter_insert_by (v : Z) (x : A) (l : list A) :
  filter (fun y => key y =? v) (insert_by key x l) =
  filter (fun y => key y =? v) (x :: l).
Proof.
  induction l as [|y l IH]; [reflexivity|].
  cbn [insert_by].
  destruct (Z.leb_spec (key x) (key y)) as [Hxy|Hxy]; [reflexivity|].
  cbn [filter] in *. rewrite IH.
  destruct (Z.eqb_spec (key x) v), (Z.eqb_spec (key y) v);
    try reflexivity; lia.
Qed.

Lemma sorted_stable (v : Z) (l : list A) :
  filter (fun y => key y =? v) (sorted key l) =
  filter (fun y => key y =? v) l.
Proof.
  induction l as [|x l IH]; [reflexivity|].
  cbn [sorted]. rewrite filter_insert_by. cbn [filter]. now rewrite IH.
Qed.
End SortedFacts.

(** ** Order of first occurrence *)

Lemma dict_mem_keys (d : dict) (c : string) :
  dict_mem d c = existsb (String.eqb c) (map fst d).
Proof.
  unfold dict_mem. induction d as [|[k v] d IH]; simpl; [reflexivity|].
  rewrite (String.eqb_sym c k).
  destruct (String.eqb k c); [reflexivity | exact IH].
Qed.

Lemma keys_keep_max (d : dict) (cp : string * Z) :
  map fst (keep_max d cp) = add_key (map fst d) (fst cp).
Proof.
  destruct cp as [c p]. unfold keep_max, add_key. simpl.
  rewrite <- dict_mem_keys.
  destruct (dict_get d c) eqn:E; now rewrite keys_set.
Qed.

Lemma keys_fold (l : list (string * Z)) (d : dict) :
  map fst (fold_left keep_max l d) = fold_left add_key (map fst l) (map fst d).
Proof.
  revert d. induction l as [|cp l IH]; intros d; cbn [fold_left map].
  - reflexivity.
  - now rewrite IH, keys_keep_max.
Qed.

(** ** The aggregator *)

Lemma aggregate_perm (codes : list (string * Z)) :
  Permutation (aggregate codes) (remove_duplicates codes).
Proof.
  apply sorted_perm.
Qed.

Lemma aggregate_in (codes : list (string * Z)) (c : string) (p : Z) :
  In (c, p) (aggregate codes) <-> max_reward c codes = Some p.
Proof.
  rewrite <- remove_duplicates_spec. split; apply Permutation_in.
  - apply aggregate_perm.
  - symmetry. apply aggregate_perm.
Qed.

Lemma aggregate_has_code (codes : list (string * Z)) (c : string) (q : Z) :
  In (c, q) codes -> In c (map fst (aggregate codes)).
Proof.
  intros Hin. destruct (max_reward_listed c codes q Hin) as [p E].
  apply aggregate_in in E. apply (in_map fst) in E. exact E.
Qed.

Lemma neg_key_eqb (v : Z) (x : string * Z) :
  (snd x =? v) = (- snd x =? - v).
Proof.
  destruct (Z.eqb_spec (snd x) v), (Z.eqb_spec (- snd x) (- v));
    (reflexivity || lia).
Qed.

Lemma aggregate_nodup (codes : list (string * Z)) :
  NoDup (map fst (aggregate codes)).
Proof.
  eapply Permutation_NoDup.
  - apply Permutation_map. symmetry. apply aggregate_perm.
  - apply nodup_remove_duplicates.
Qed.

(** C4. The aggregator keeps one entry per code, and the entry of a code
    carries the largest reward listed for it: [(c, p)] is an entry exactly
    when [(c, p)] is listed and no reward listed for [c] exceeds [p].
    Every listed code has its entry, and a code listed with 50 and 100, in
    either order, is left with the single entry 100. *)
Theorem aggregate_one_entry_max_reward (codes : list (string * Z)) :
  NoDup (map fst (aggregate codes)) /\
  (forall c p, In (c, p) (aggregate codes) <->
               In (c, p) codes /\ forall q, In (c, q) codes -> q <= p) /\
  (forall c q, In (c, q) codes -> In c (map fst (aggregate codes))) /\
  (forall c, aggregate [(c, 50); (c, 100)] = [(c, 100)] /\
             aggregate [(c, 100); (c, 50)] = [(c, 100)]).
Proof.
  repeat split.
  - apply aggregate_nodup.
  - now apply max_reward_spec, aggregate_in.
  - now apply max_reward_spec, aggregate_in.
  - intros [Hin Hmax]. apply aggregate_in, max_reward_spec. now split.
  - apply aggregate_has_code.
  - unfold aggregate, remove_duplicates. simpl.
    now rewrite !String.eqb_refl.
  - unfold aggregate, remove_duplicates. simpl.
    now rewrite !String.eqb_refl.
Qed.

(** C5. The result is in descending order of reward, entries of equal
    reward stand in the order of [final_codes], and that order is the
    order in which the codes first occur in the input.  Rewards 500, 100
    and 300 of three codes come out as 500, 300, 100. *)
Theorem aggregate_sorted_desc_stable (codes : list (string * Z)) :
  StronglySorted (fun a b => snd b <= snd a) (aggregate codes) /\
  (forall v, filter (fun x => snd x =? v) (aggregate codes) =
             filter (fun x => snd x =? v) (remove_duplicates codes)) /\
  map fst (remove_duplicates codes) = first_occurrences (map fst codes) /\
  aggregate [("AAAAAA", 500); ("BBBBBB", 100); ("CCCCCC", 300)] =
    [("AAAAAA", 500); ("CCCCCC", 300); ("BBBBBB", 100)].
Proof.
  split; [|split; [|split]].
  - pose proof (sorted_sorted (fun x : string * Z => - snd x)
                  (remove_duplicates codes)) as H.
    unfold aggregate, sort_desc.
    eapply strongly_sorted_weaken; [|exact H].
    unfold key_le. intros a b Hab. lia.
  - intros v. unfold aggregate, sort_desc.
    rewrite !(filter_ext _ _ (neg_key_eqb v)).
    apply sorted_stable.
  - apply (keys_fold codes []).
  - reflexivity.
Qed.

(** ** Dates *)

Lemma date_ltb_irrefl (d : date) : date_ltb d d = false.
Proof.
  unfold date_ltb. rewrite !Z.ltb_irrefl, !Z.eqb_refl. reflexivity.
Qed.

Lemma date_lt_asym (a b : date) : date_lt a b -> date_ltb b a = false.
Proof.
  unfold date_lt, date_ltb.
  destruct (Z.ltb_spec (year a) (year b)), (Z.ltb_spec (year b) (year a)),
    (Z.eqb_spec (year a) (year b)), (Z.eqb_spec (year b) (year a)),
    (Z.ltb_spec (month a) (month b)), (Z.ltb_spec (month b) (month a)),
    (Z.eqb_spec (month a) (month b)), (Z.eqb_spec (month b) (month a)),
    (Z.ltb_spec (day a) (day b)), (Z.ltb_spec (day b) (day a));
    simpl; intros; congruence || lia.
Qed.

(** ** The row loop *)

Lemma match_code_empty : match_code "" = None.
Proof. reflexivity. Qed.

Lemma row_fields_inv (today : date) (cells : row) (c : string) (e : expiry)
    (p : Z) :
  row_fields today cells = Some (c, e, p) ->
  match_code (nth 0 cells "") = Some c /\
  e = parse_date (nth 2 cells "") /\
  is_expired e = false /\ before today e = false /\
  find_poly (nth 1 cells "") = Some p /\ 0 < p.
Proof.
  unfold row_fields. destruct cells as [|code_txt rest]; [discriminate|].
  cbn [nth].
  destruct (match_code code_txt) as [code|]; [|discriminate].
  destruct (is_expired _) eqn:He; [discriminate|].
  destruct (before today _) eqn:Hb; [discriminate|].
  destruct (find_poly _) as [poly|]; [|discriminate].
  destruct (Z.ltb_spec 0 poly); [|discriminate].
  intros [= <- <- <-]. repeat split; assumption.
Qed.

Lemma row_fields_kept (today : date) (cells : row) (c : string) (p : Z) :
  match_code (nth 0 cells "") = Some c ->
  is_expired (parse_date (nth 2 cells "")) = false ->
  before today (parse_date (nth 2 cells "")) = false ->
  find_poly (nth 1 cells "") = Some p -> 0 < p ->
  row_fields today cells = Some (c, parse_date (nth 2 cells ""), p).
Proof.
  unfold row_fields. destruct cells as [|code_txt rest].
  - cbn [nth]. rewrite match_code_empty. discriminate.
  - cbn [nth]. intros -> -> -> -> Hp.
    apply Z.ltb_lt in Hp. now rewrite Hp.
Qed.

Lemma process_row_kept (today : date) (cells : row) (c : string) (p : Z) :
  match_code (nth 0 cells "") = Some c ->
  is_expired (parse_date (nth 2 cells "")) = false ->
  before today (parse_date (nth 2 cells "")) = false ->
  find_poly (nth 1 cells "") = Some p -> 0 < p ->
  process_row today cells = Some (c, p).
Proof.
  intros Hc He Hb Hp Hpos. unfold process_row.
  now rewrite (row_fields_kept today cells c p Hc He Hb Hp Hpos).
Qed.

Lemma process_row_expired (today : date) (cells : row) :
  is_expired (parse_date (nth 2 cells "")) = true ->
  process_row today cells = None.
Proof.
  unfold process_row, row_fields.
  destruct cells as [|code_txt rest]; [reflexivity|].
  cbn [nth]. intros ->. now destruct (match_code code_txt).
Qed.

Lemma collect_in (today : date) (rows : list row) (cp : string * Z) :
  In cp (collect today rows) <->
  exists cells, In cells rows /\ process_row today cells = Some cp.
Proof.
  induction rows as [|cells rows IH]; cbn [collect].
  - split; [intros [] | intros [? [[] _]]].
  - destruct (process_row today cells) as [cp'|] eqn:E; cbn [In]; rewrite ?IH.
    + split.
      * intros [<-|[x [Hx Hp]]]; [exists cells; auto | exists x; auto].
      * intros [x [[<-|Hx] Hp]]; [left; congruence | right; eauto].
    + split.
      * intros [x [Hx Hp]]. exists x; auto.
      * intros [x [[<-|Hx] Hp]]; [congruence | eauto].
Qed.

Lemma fetch_codes_table (today : date) (st : Z) (rows : list row) :
  (400 <=? st) && (st <? 600) = false ->
  fetch_codes today (Response st (mkpage (Some rows))) =
  Ok (aggregate (collect today rows)).
Proof.
  intros H. unfold fetch_codes, requests_get, raise_for_status, bind.
  cbn [fst snd]. rewrite H. reflexivity.
Qed.

Lemma fetch_codes_total (today : date) (o : get_outcome) :
  exists l, fetch_codes today o = Ok l.
Proof.
  unfold fetch_codes, requests_get, raise_for_status, bind.
  destruct o as [|st [table]]; cbn [fst snd wikitable]; [eauto|].
  destruct ((400 <=? st) && (st <? 600)); cbn [snd wikitable]; [eauto|].
  destruct table; eauto.
Qed.

(** C2. What reaches the candidate list is active on the current date:
    every pair appended to [codes] comes from a row whose expiry status
    is not [Expired], whose expiry date, when it has one, is not earlier
    than the current date, and whose reward is positive. *)
Theorem candidates_are_active (today : date) (rows : list row) (c : string)
    (p : Z) :
  In (c, p) (collect today rows) ->
  exists cells e,
    In cells rows /\ row_fields today cells = Some (c, e, p) /\
    e = parse_date (nth 2 cells "") /\ e <> Expired /\
    (forall d, e = OnDate d -> date_ltb d today = false) /\ 0 < p.
Proof.
  intros Hin. apply collect_in in Hin. destruct Hin as [cells [Hcells Hp]].
  unfold process_row in Hp.
  destruct (row_fields today cells) as [[[c' e] p']|] eqn:E; [|discriminate].
  injection Hp as -> ->.
  destruct (row_fields_inv today cells c e p E) as (_ & He & Hx & Hb & _ & Hpos).
  exists cells, e. repeat split; try assumption.
  - intros ->. discriminate.
  - intros d ->. exact Hb.
Qed.

Lemma candidates_are_active_witness :
  In ("ABCDEF123", 500) (collect sample_today [future_row]) /\
  exists cells e,
    In cells [future_row] /\
    row_fields sample_today cells = Some ("ABCDEF123", e, 500) /\
    e = parse_date (nth 2 cells "") /\ e <> Expired /\
    (forall d, e = OnDate d -> date_ltb d sample_today = false) /\ 0 < 500.
Proof.
  split.
  - vm_compute. left. reflexivity.
  - apply (candidates_are_active sample_today [future_row] "ABCDEF123" 500).
    vm_compute. left. reflexivity.
Defined.

(** C2 as stated fails: on 3 November 2026 the row below reaches the
    candidate list with the expiry date 1 January 2099, which is in the
    future. *)
Lemma future_dated_row_is_candidate :
  row_fields sample_today future_row =
    Some ("ABCDEF123", OnDate (mkdate 2099 1 1), 500) /\
  collect sample_today [future_row] = [("ABCDEF123", 500)] /\
  date_lt sample_today (mkdate 2099 1 1).
Proof.
  repeat split; vm_compute; reflexivity.
Qed.

Lemma parse_date_sample : parse_date "January 1, 2099" = OnDate (mkdate 2099 1 1).
Proof. vm_compute. reflexivity. Qed.

(** C7. With the two sample rows and a current date before 1 January
    2099, the loop collects the first code only and [fetch_codes] returns
    the single entry ABCDEF123 with reward 500. *)
Theorem sample_rows_give_one_code (today : date) :
  date_lt today (mkdate 2099 1 1) ->
  collect today sample_rows = [("ABCDEF123", 500)] /\
  fetch_codes today (Response 200 (mkpage (Some sample_rows))) =
    Ok [("ABCDEF123", 500)].
Proof.
  intros Htoday.
  assert (Hc : collect today sample_rows = [("ABCDEF123", 500)]).
  { unfold sample_rows. cbn [collect].
    rewrite (process_row_kept today _ "ABCDEF123" 500).
    - rewrite process_row_expired; reflexivity.
    - reflexivity.
    - reflexivity.
    - cbn [nth]. rewrite parse_date_sample. cbn [before].
      now apply date_lt_asym.
    - reflexivity.
    - reflexivity. }
  split; [exact Hc|].
  rewrite fetch_codes_table by reflexivity. rewrite Hc. reflexivity.
Qed.

Lemma sample_rows_give_one_code_witness :
  date_lt sample_today (mkdate 2099 1 1) /\
  collect sample_today sample_rows = [("ABCDEF123", 500)] /\
  fetch_codes sample_today (Response 200 (mkpage (Some sample_rows))) =
    Ok [("ABCDEF123", 500)].
Proof.
  split; [reflexivity|].
  apply (sample_rows_give_one_code sample_today). reflexivity.
Defined.

(** C10. The expiry test excludes a dated row exactly when its date is
    earlier than the current date.  A row whose expiry text parses to the
    current date, whose code field matches and whose reward field
    matches with an amount above zero is appended to the candidates, and
    its code is in the list [fetch_codes] returns. *)
Theorem row_expiring_today_is_kept (today : date) (rows : list row)
    (cells : row) (c : string) (p : Z) :
  In cells rows ->
  parse_date (nth 2 cells "") = OnDate today ->
  match_code (nth 0 cells "") = Some c ->
  find_poly (nth 1 cells "") = Some p ->
  0 < p ->
  (forall d, before today (OnDate d) = true <-> date_lt d today) /\
  row_fields today cells = Some (c, OnDate today, p) /\
  In (c, p) (collect today rows) /\
  exists result,
    fetch_codes today (Response 200 (mkpage (Some rows))) = Ok result /\
    In c (map fst result).
Proof.
  intros Hin Hd Hc Hp Hpos.
  assert (He : is_expired (parse_date (nth 2 cells "")) = false)
    by now rewrite Hd.
  assert (Hb : before today (parse_date (nth 2 cells "")) = false)
    by (rewrite Hd; apply date_ltb_irrefl).
  assert (Hcol : In (c, p) (collect today rows)).
  { apply collect_in. exists cells. split; [exact Hin|].
    now apply process_row_kept. }
  split; [intros d; reflexivity|].
  split; [rewrite <- Hd; now apply row_fields_kept|].
  split; [exact Hcol|].
  exists (aggregate (collect today rows)). split.
  - now apply fetch_codes_table.
  - eapply aggregate_has_code, Hcol.
Qed.

Lemma row_expiring_today_is_kept_witness :
  (In today_row [today_row] /\
   parse_date (nth 2 today_row "") = OnDate sample_today /\
   match_code (nth 0 today_row "") = Some "ABCDEF123" /\
   find_poly (nth 1 today_row "") = Some 60 /\ 0 < 60) /\
  (forall d, before sample_today (OnDate d) = true <-> date_lt d sample_today) /\
  row_fields sample_today today_row = Some ("ABCDEF123", OnDate sample_today, 60) /\
  In ("ABCDEF123", 60) (collect sample_today [today_row]) /\
  exists result,
    fetch_codes sample_today (Response 200 (mkpage (Some [today_row]))) =
      Ok result /\
    In "ABCDEF123" (map fst result).
Proof.
  split.
  - repeat split; (now left) || (vm_compute; reflexivity).
  - apply (row_expiring_today_is_kept sample_today [today_row] today_row
             "ABCDEF123" 60).
    + now left.
    + vm_compute; reflexivity.
    + vm_compute; reflexivity.
    + vm_compute; reflexivity.
    + reflexivity.
Defined.

(** C10 as stated fails when the reward field matches with the amount
    zero: this row expires on the current date, its code and reward
    fields match, and it is not in the result. *)
Lemma zero_reward_row_today_is_dropped :
  parse_date (nth 2 zero_reward_row "") = OnDate sample_today /\
  match_code (nth 0 zero_reward_row "") = Some "ABCDEF123" /\
  find_poly (nth 1 zero_reward_row "") = Some 0 /\
  fetch_codes sample_today (Response 200 (mkpage (Some [zero_reward_row]))) =
    Ok [].
Proof.
  repeat split; vm_compute; reflexivity.
Qed.

(** C8. A transport error, an HTTP error status, and a page without the
    table each make [fetch_codes] return the empty list; and [fetch_codes]
    returns a list, never an exception, whatever the request does. *)
Theorem fetch_codes_failures_give_empty (today : date) :
  fetch_codes today TransportFailure = Ok [] /\
  (forall st body, 400 <= st < 600 ->
     fetch_codes today (Response st body) = Ok []) /\
  (forall st, fetch_codes today (Response st (mkpage None)) = Ok []) /\
  (forall o, exists l, fetch_codes today o = Ok l).
Proof.
  split; [reflexivity|]. split; [|split].
  - intros st body Hst.
    unfold fetch_codes, requests_get, raise_for_status, bind. cbn [fst].
    destruct (Z.leb_spec 400 st), (Z.ltb_spec st 600); try lia. reflexivity.
  - intros st.
    unfold fetch_codes, requests_get, raise_for_status, bind. cbn [fst].
    destruct ((400 <=? st) && (st <? 600)); reflexivity.
  - apply fetch_codes_total.
Qed.

Lemma fetch_codes_failures_give_empty_witness :
  400 <= 404 < 600 /\
  fetch_codes sample_today (Response 404 (mkpage (Some sample_rows))) = Ok [].
Proof.
  split; [lia|].
  apply (fetch_codes_failures_give_empty sample_today). lia.
Defined.

(** ** The cache *)

Lemma new_codes_of_filter (codes : list (string * Z)) (cached : dict) :
  new_codes_of codes cached =
  filter (fun c => negb (dict_mem cached c)) (map fst codes).
Proof.
  unfold new_codes_of.
  induction codes as [|[c p] codes IH]; cbn [flat_map map filter fst].
  - reflexivity.
  - rewrite IH. destruct (dict_mem cached c); reflexivity.
Qed.

Lemma new_codes_of_empty (codes : list (string * Z)) :
  new_codes_of codes [] = map fst codes.
Proof.
  rewrite new_codes_of_filter.
  induction codes as [|[c p] codes IH]; [reflexivity|].
  simpl in *. congruence.
Qed.

Lemma dict_set_new (d : dict) (k : string) (v : Z) :
  dict_get d k = None -> dict_set d k v = (d ++ [(k, v)])%list.
Proof.
  induction d as [|[k' v'] d IH]; simpl; [reflexivity|].
  destruct (String.eqb k' k); [discriminate|].
  intros H. now rewrite IH.
Qed.

Lemma dict_of_fold (l : list (string * Z)) (d : dict) :
  NoDup (map fst (d ++ l)%list) ->
  fold_left (fun d cp => dict_set d (fst cp) (snd cp)) l d = (d ++ l)%list.
Proof.
  revert d. induction l as [|[k v] l IH]; intros d Hnd; cbn [fold_left fst snd].
  - now rewrite app_nil_r.
  - assert (Hk : dict_get d k = None).
    { apply dict_get_none. intros Hin.
      rewrite map_app in Hnd. cbn [map fst] in Hnd.
      apply NoDup_remove_2 in Hnd. apply Hnd, in_or_app. now left. }
    rewrite (dict_set_new d k v Hk), IH.
    + now rewrite <- app_assoc.
    + now rewrite <- app_assoc.
Qed.

(** A list of pairs with distinct codes is its own dictionary. *)
Lemma dict_of_nodup (codes : list (string * Z)) :
  NoDup (map fst codes) -> dict_of codes = codes.
Proof.
  intros Hnd. apply (dict_of_fold codes []). exact Hnd.
Qed.

Lemma fetch_codes_nodup (today : date) (o : get_outcome)
    (codes : list (string * Z)) :
  fetch_codes today o = Ok codes -> NoDup (map fst codes).
Proof.
  unfold fetch_codes, requests_get, raise_for_status, bind.
  destruct o as [|st [table]]; cbn [fst snd wikitable].
  - intros [= <-]. constructor.
  - destruct ((400 <=? st) && (st <? 600)); cbn [snd wikitable].
    + intros [= <-]. constructor.
    + destruct table; intros [= <-]; [apply aggregate_nodup | constructor].
Qed.

(** C3. With no cache file, [load_cache] returns the empty mapping and
    the press goes through as a first run: every fetched code is new and
    the cache is written.  With a cache file whose contents do not load,
    [load_cache] raises, and so does the press. *)
Theorem load_cache_missing_is_empty :
  load_cache Missing = Ok [] /\
  (forall today o,
     on_fetch today o Missing =
     (codes <- fetch_codes today o ;;
      Ok (mkpress codes (map fst codes) (save_cache (dict_of codes))))) /\
  load_cache Unreadable = Raise JSONDecodeError /\
  (forall today o, on_fetch today o Unreadable = Raise JSONDecodeError).
Proof.
  split; [reflexivity|]. split; [|split; [reflexivity|]].
  - intros today o. unfold on_fetch, diff_and_save, bind.
    destruct (fetch_codes today o) as [codes|e]; [|reflexivity].
    cbn. now rewrite new_codes_of_empty.
  - intros today o. unfold on_fetch.
    destruct (fetch_codes_total today o) as [codes ->]. reflexivity.
Qed.

(** C3 as stated fails for a file that is there but does not load: the
    load raises, and the press raises with it instead of going on with
    an empty mapping. *)
Lemma load_cache_unreadable_raises :
  path_exists Unreadable = true /\
  load_cache Unreadable = Raise JSONDecodeError /\
  on_fetch sample_today (Response 200 (mkpage (Some sample_rows))) Unreadable =
    Raise JSONDecodeError.
Proof.
  repeat split; vm_compute; reflexivity.
Qed.

(** C6. When the fetch returns [codes] and the cache file loads as
    [cached], the new codes are the codes of [codes], in their order,
    that are not keys of [cached], and the cache file afterwards holds
    the pairs of [codes] and nothing else: a code of the old mapping
    that was not fetched again is gone.  With the cache {A:10} and the
    fetched set {A:10, B:20} the new codes are [B] and the cache holds
    {A:10, B:20}. *)
Theorem cache_diff_and_overwrite (today : date) (o : get_outcome)
    (f : cache_file) (codes : list (string * Z)) (cached : dict) :
  fetch_codes today o = Ok codes ->
  load_cache f = Ok cached ->
  on_fetch today o f =
    Ok (mkpress codes
          (filter (fun c => negb (dict_mem cached c)) (map fst codes))
          (Holding codes)) /\
  (forall c, In c (filter (fun c => negb (dict_mem cached c)) (map fst codes))
             <-> In c (map fst codes) /\ dict_get cached c = None) /\
  load_cache (Holding codes) = Ok codes /\
  (forall c p, dict_get codes c = Some p <-> In (c, p) codes) /\
  (forall c, ~ In c (map fst codes) -> dict_get codes c = None) /\
  diff_and_save [("B", 20); ("A", 10)] (Holding [("A", 10)]) =
    Ok (mkpress [("B", 20); ("A", 10)] ["B"] (Holding [("B", 20); ("A", 10)])).
Proof.
  intros Hfetch Hload.
  pose proof (fetch_codes_nodup today o codes Hfetch) as Hnd.
  split; [|split; [|split; [|split; [|split]]]].
  - unfold on_fetch, diff_and_save, save_cache, bind.
    rewrite Hfetch, Hload, new_codes_of_filter, (dict_of_nodup codes Hnd).
    reflexivity.
  - intros c. rewrite filter_In. unfold dict_mem.
    destruct (dict_get cached c); simpl; intuition congruence.
  - reflexivity.
  - intros c p. split; [apply dict_get_in | now apply in_dict_get].
  - intros c. apply dict_get_none.
  - reflexivity.
Qed.

Lemma cache_diff_and_overwrite_witness :
  (fetch_codes sample_today (Response 200 (mkpage (Some cached_rows))) =
     Ok [("BBBBBB", 20); ("AAAAAA", 10)] /\
   load_cache (Holding [("AAAAAA", 10)]) = Ok [("AAAAAA", 10)]) /\
  on_fetch sample_today (Response 200 (mkpage (Some cached_rows)))
    (Holding [("AAAAAA", 10)]) =
    Ok (mkpress [("BBBBBB", 20); ("AAAAAA", 10)] ["BBBBBB"]
          (Holding [("BBBBBB", 20); ("AAAAAA", 10)])).
Proof.
  split.
  - split; vm_compute; reflexivity.
  - apply (cache_diff_and_overwrite sample_today
             (Response 200 (mkpage (Some cached_rows)))
             (Holding [("AAAAAA", 10)])
             [("BBBBBB", 20); ("AAAAAA", 10)] [("AAAAAA", 10)]);
      vm_compute; reflexivity.
Defined.

(** * Further properties *)

(** ** The matcher *)

Lemma substring_take (n : nat) (s : string) : substring 0 n s = take n s.
Proof.
  revert s. induction n as [|n IH]; intros [|c s]; simpl;
    try reflexivity. now rewrite IH.
Qed.

Lemma length_drop (n : nat) (s : string) :
  (n <= String.length s)%nat ->
  String.length (drop n s) = (String.length s - n)%nat.
Proof.
  revert s. induction n as [|n IH]; intros [|c s]; simpl; intros H;
    try reflexivity; try lia. apply IH. lia.
Qed.

Lemma length_take (n : nat) (s : string) :
  (n <= String.length s)%nat -> String.length (take n s) = n.
Proof.
  revert s. induction n as [|n IH]; intros [|c s]; simpl; intros H;
    try reflexivity; try lia. f_equal. apply IH. lia.
Qed.

Lemma take_drop (n : nat) (s : string) : take n s ++ drop n s = s.
Proof.
  revert s. induction n as [|n IH]; intros [|c s]; simpl;
    try reflexivity. now rewrite IH.
Qed.

Lemma consumed_drop (n : nat) (s : string) :
  (n <= String.length s)%nat -> consumed s (drop n s) = take n s.
Proof.
  intros H. unfold consumed. rewrite length_drop by exact H.
  rewrite substring_take. f_equal. lia.
Qed.

Lemma within_0 (hi : option nat) : within hi 0.
Proof.
  destruct hi; simpl; [lia | exact I].
Qed.

Lemma rep_stop {R : Type} (p : ascii -> bool) (s : string) (lo : nat)
    (hi : option nat) (prev : option ascii)
    (k : option ascii -> string -> option R) (r : R) :
  (if (lo =? 0)%nat then k prev s else None) = Some r ->
  exists n prev',
    (lo <= n)%nat /\ within hi n /\ (n <= String.length s)%nat /\
    all_chars p (take n s) = true /\ k prev' (drop n s) = Some r.
Proof.
  destruct (Nat.eqb_spec lo 0) as [->|_]; [|discriminate].
  intros H. exists 0%nat, prev.
  split; [lia|]. split; [apply within_0|]. split; [lia|].
  split; [reflexivity|]. destruct s; exact H.
Qed.

(** What a successful repetition took: between [lo] and [hi] characters
    of the class, after which the rest of the pattern went through. *)
Lemma rep_inv {R : Type} (p : ascii -> bool) (s : string) :
  forall (lo : nat) (hi : option nat) (prev : option ascii)
         (k : option ascii -> string -> option R) (r : R),
  rep p lo hi prev s k = Some r ->
  exists n prev',
    (lo <= n)%nat /\ within hi n /\ (n <= String.length s)%nat /\
    all_chars p (take n s) = true /\ k prev' (drop n s) = Some r.
Proof.
  induction s as [|c s IH]; intros lo hi prev k r; cbn [rep].
  - apply rep_stop.
  - destruct (hi_open hi && p c) eqn:E; [|apply rep_stop].
    apply andb_prop in E. destruct E as [Hopen Hp].
    destruct (rep p (Nat.pred lo) (hi_pred hi) (Some c) s k) as [r'|] eqn:E';
      cbn [or_else]; [|apply rep_stop].
    intros [= <-].
    destruct (IH _ _ _ _ _ E') as (n & prev' & Hlo & Hhi & Hlen & Hall & Hk).
    exists (S n), prev'.
    split; [lia|]. split.
    { destruct hi as [[|h]|]; simpl in *; try discriminate; try lia; exact I. }
    split; [simpl; lia|]. split; [simpl; now rewrite Hp|]. exact Hk.
Qed.

(** A pattern without groups hands the groups on unchanged. *)
Lemma exec_no_groups {R : Type} (r : re) :
  no_groups r = true ->
  forall (prev : option ascii) (s : string) (g : groups)
         (k : option ascii -> string -> groups -> option R) (res : R),
  exec r prev s g k = Some res ->
  exists prev' s', k prev' s' g = Some res.
Proof.
  induction r as [|p|r1 IH1 r2 IH2|r1 IH1 r2 IH2|p lo hi|name r1 IH1|];
    cbn [no_groups exec]; intros Hng prev s g k res H.
  - eauto.
  - destruct s as [|c s]; [discriminate|].
    destruct (p c); [eauto | discriminate].
  - apply andb_prop in Hng. destruct Hng as [H1 H2].
    destruct (IH1 H1 _ _ _ _ _ H) as (prev' & s' & H').
    exact (IH2 H2 _ _ _ _ _ H').
  - apply andb_prop in Hng. destruct Hng as [H1 H2].
    destruct (exec r1 prev s g k) eqn:E; cbn [or_else] in H.
    + injection H as <-. exact (IH1 H1 _ _ _ _ _ E).
    + exact (IH2 H2 _ _ _ _ _ H).
  - destruct (rep_inv _ _ _ _ _ _ _ H) as (n & prev' & _ & _ & _ & _ & Hk).
    eauto.
  - discriminate.
  - destruct (xorb _ _); [eauto | discriminate].
Qed.

(** A match found by [search] sits somewhere in the subject. *)
Lemma search_from_inv (r : re) (s : string) :
  forall (prev : option ascii) (m : string) (g : groups),
  search_from r prev s = Some (m, g) ->
  exists pre t prev' rest,
    s = pre ++ t /\ match_at r prev' t = Some (rest, g) /\
    m = consumed t rest.
Proof.
  induction s as [|c s IH]; intros prev m g; cbn [search_from].
  - destruct (match_at r prev "") as [[s' g']|] eqn:E; [|discriminate].
    intros [= <- <-]. exists "", "", prev, s'. auto.
  - destruct (match_at r prev (String c s)) as [[s' g']|] eqn:E.
    + intros [= <- <-]. exists "", (String c s), prev, s'. auto.
    + intros H. destruct (IH _ _ _ H) as (pre & t & prev' & rest & -> & Hm & Hc).
      exists (String c pre), t, prev', rest. auto.
Qed.

Lemma code_pattern_inv (prev : option ascii) (t rest : string) (g : groups) :
  match_at code_pattern prev t = Some (rest, g) ->
  exists n, (6 <= n <= 24)%nat /\ (n <= String.length t)%nat /\
            all_chars is_code_char (take n t) = true /\ rest = drop n t.
Proof.
  unfold match_at, code_pattern. cbn [exec].
  destruct (xorb _ _); [|discriminate].
  intros H. apply rep_inv in H.
  destruct H as (n & prev' & Hlo & Hhi & Hlen & Hall & Hk).
  destruct (xorb _ _); [|discriminate].
  injection Hk as <- _. exists n. simpl in Hhi. auto.
Qed.



Lemma match_code_inv (code_txt code : string) :
  match_code code_txt = Some code ->
  exists pre post,
    upper code_txt = pre ++ code ++ post /\
    (6 <= String.length code <= 24)%nat /\
    all_chars is_code_char code = true.
Proof.
  unfold match_code, search.
  destruct (search_from code_pattern None (upper code_txt)) as [[m g]|] eqn:E;
    [|discriminate].
  intros [= <-].
  destruct (search_from_inv _ _ _ _ _ E) as (pre & t & prev' & rest & Hs & Hm & Hc).
  destruct (code_pattern_inv _ _ _ _ Hm) as (n & Hn & Hlen & Hall & ->).
  rewrite consumed_drop in Hc by exact Hlen. subst m.
  exists pre, (drop n t). rewrite take_drop. repeat split; try assumption.
  - rewrite length_take by exact Hlen. lia.
  - rewrite length_take by exact Hlen. lia.
Qed.

(** ** The code and the reward of a row *)

(** X1. A code that [match_code] returns is a piece of the upper-cased
    cell text, 6 to 24 characters long, made of capital letters and
    digits only. *)
Theorem match_code_token (code_txt code : string) :
  match_code code_txt = Some code ->
  (6 <= String.length code <= 24)%nat /\
  all_chars is_code_char code = true /\
  exists pre post, upper code_txt = pre ++ code ++ post.
Proof.
  intros H. destruct (match_code_inv _ _ H) as (pre & post & Hs & Hlen & Hall).
  split; [exact Hlen|]. split; [exact Hall|]. now exists pre, post.
Qed.

Lemma match_code_token_witness :
  match_code "code: zzz2024gift!" = Some "ZZZ2024GIFT" /\
  ((6 <= String.length "ZZZ2024GIFT" <= 24)%nat /\
   all_chars is_code_char "ZZZ2024GIFT" = true /\
   exists pre post, upper "code: zzz2024gift!" = pre ++ "ZZZ2024GIFT" ++ post).
Proof.
  split; [vm_compute; reflexivity|].
  apply (match_code_token "code: zzz2024gift!" "ZZZ2024GIFT").
  vm_compute. reflexivity.
Defined.



Lemma digit_not_space (c : ascii) : is_digit c = true -> is_space c = false.
Proof.
  unfold is_digit, is_space, between. intros H.
  apply andb_prop in H. destruct H as [H1 H2].
  apply Nat.leb_le in H1. apply Nat.leb_le in H2.
  destruct (Nat.leb_spec (code c) 13), (Nat.leb_spec 28 (code c)),
    (Nat.leb_spec 9 (code c)), (Nat.leb_spec (code c) 32);
    simpl; try reflexivity; lia.
Qed.

Lemma rstrip_digits (s : string) : all_chars is_digit s = true -> rstrip s = s.
Proof.
  induction s as [|c s IH]; [reflexivity|]. cbn [all_chars rstrip].
  intros H. apply andb_prop in H. destruct H as [Hc Hs].
  rewrite (IH Hs). destruct s; [|reflexivity].
  now rewrite (digit_not_space c Hc).
Qed.

Lemma strip_digits (s : string) : all_chars is_digit s = true -> strip s = s.
Proof.
  intros H. unfold strip.
  assert (Hl : lstrip s = s).
  { destruct s as [|c s]; [reflexivity|]. cbn [all_chars] in H.
    apply andb_prop in H. cbn [lstrip].
    now rewrite (digit_not_space c (proj1 H)). }
  rewrite Hl. now apply rstrip_digits.
Qed.

Lemma digit_value (c : ascii) :
  is_digit c = true -> 0 <= Z.of_nat (code c - 48) <= 9.
Proof.
  unfold is_digit, between. intros H.
  apply andb_prop in H. destruct H as [H1 H2].
  apply Nat.leb_le in H1. apply Nat.leb_le in H2. lia.
Qed.

Lemma int_acc_bound (s : string) :
  all_chars is_digit s = true ->
  forall acc, 0 <= acc ->
  0 <= int_acc acc s < (acc + 1) * 10 ^ Z.of_nat (String.length s).
Proof.
  induction s as [|c s IH]; intros H acc Hacc; cbn [int_acc String.length].
  - simpl. lia.
  - cbn [all_chars] in H. apply andb_prop in H. destruct H as [Hc Hs].
    pose proof (digit_value c Hc) as Hd.
    specialize (IH Hs (10 * acc + Z.of_nat (code c - 48))).
    rewrite Nat2Z.inj_succ, Z.pow_succ_r by lia.
    assert (Hpow : 0 < 10 ^ Z.of_nat (String.length s))
      by (apply Z.pow_pos_nonneg; lia).
    destruct IH as [IH1 IH2]; [lia|]. split; [exact IH1|]. nia.
Qed.

Lemma int_digits_bound (v : string) :
  all_chars is_digit v = true -> (String.length v <= 4)%nat ->
  0 <= int v <= 9999.
Proof.
  intros Hall Hlen. unfold int. rewrite (strip_digits v Hall).
  destruct (int_acc_bound v Hall 0) as [H1 H2]; [lia|].
  assert (10 ^ Z.of_nat (String.length v) <= 10 ^ 4)
    by (apply Z.pow_le_mono_r; lia).
  lia.
Qed.

Lemma exec_grp_rep {R : Type} (name : string) (p : ascii -> bool) (lo : nat)
    (hi : option nat) (r2 : re) (prev : option ascii) (t : string)
    (g : groups) (k : option ascii -> string -> groups -> option R) :
  exec (Seq (Grp name (Rep p lo hi)) r2) prev t g k =
  rep p lo hi prev t
    (fun prev' s' => exec r2 prev' s' ((name, consumed t s') :: g) k).
Proof. reflexivity. Qed.

Lemma poly_pattern_inv (prev : option ascii) (t rest : string) (g : groups) :
  match_at poly_pattern prev t = Some (rest, g) ->
  exists n, (1 <= n <= 4)%nat /\ (n <= String.length t)%nat /\
            all_chars is_digit (take n t) = true /\
            g = [("1", take n t)].
Proof.
  unfold match_at, poly_pattern. rewrite exec_grp_rep.
  intros H. apply rep_inv in H.
  destruct H as (n & prev' & Hlo & Hhi & Hlen & Hall & Hk).
  apply exec_no_groups in Hk; [|reflexivity].
  destruct Hk as (prev'' & s'' & [= _ <-]).
  exists n. rewrite consumed_drop by exact Hlen. simpl in Hhi. auto.
Qed.

Lemma find_poly_inv (reward_txt : string) (p : Z) :
  find_poly reward_txt = Some p ->
  exists v, (1 <= String.length v <= 4)%nat /\
            all_chars is_digit v = true /\ p = int v /\
            exists pre post, reward_txt = pre ++ v ++ post.
Proof.
  unfold find_poly, search.
  destruct (search_from poly_pattern None reward_txt) as [[m g]|] eqn:E;
    [|discriminate].
  destruct (search_from_inv _ _ _ _ _ E) as (pre & t & prev' & rest & Hs & Hm & _).
  destruct (poly_pattern_inv _ _ _ _ Hm) as (n & Hn & Hlen & Hall & ->).
  cbn [group]. rewrite String.eqb_refl. intros [= <-].
  exists (take n t). rewrite length_take by exact Hlen.
  repeat split; try assumption; try lia.
  exists pre, (drop n t). now rewrite take_drop.
Qed.

(** X3. The amount [find_poly] reads is the number written by one to
    four digits of the reward text, so it lies between 0 and 9999. *)
Theorem find_poly_range (reward_txt : string) (p : Z) :
  find_poly reward_txt = Some p ->
  0 <= p <= 9999 /\
  exists v pre post,
    reward_txt = pre ++ v ++ post /\ (1 <= String.length v <= 4)%nat /\
    all_chars is_digit v = true /\ p = int v.
Proof.
  intros H.
  destruct (find_poly_inv _ _ H) as (v & Hlen & Hall & -> & pre & post & Hs).
  split; [apply int_digits_bound; [exact Hall | lia]|].
  exists v, pre, post. auto.
Qed.

Lemma find_poly_range_witness :
  find_poly "Polychrome x12345 polychromes" = Some 2345 /\
  (0 <= 2345 <= 9999 /\
   exists v pre post,
     "Polychrome x12345 polychromes" = pre ++ v ++ post /\
     (1 <= String.length v <= 4)%nat /\
     all_chars is_digit v = true /\ 2345 = int v).
Proof.
  split; [vm_compute; reflexivity|].
  apply (find_poly_range "Polychrome x12345 polychromes" 2345).
  vm_compute. reflexivity.
Defined.

Lemma fetch_codes_cases (today : date) (o : get_outcome)
    (codes : list (string * Z)) :
  fetch_codes today o = Ok codes ->
  codes = [] \/
  exists st rows, o = Response st (mkpage (Some rows)) /\
                  codes = aggregate (collect today rows).
Proof.
  unfold fetch_codes, requests_get, raise_for_status, bind.
  destruct o as [|st [table]]; cbn [fst snd wikitable].
  - intros [= <-]. now left.
  - destruct ((400 <=? st) && (st <? 600)); cbn [snd wikitable].
    + intros [= <-]. now left.
    + destruct table as [rows|]; intros [= <-]; [right | now left].
      now exists st, rows.
Qed.

Lemma aggregate_from_input (codes : list (string * Z)) (c : string) (p : Z) :
  In (c, p) (aggregate codes) -> In (c, p) codes.
Proof.
  intros H. apply aggregate_in, max_reward_sound in H. tauto.
Qed.

(** X4. Every entry of the list [fetch_codes] returns is well formed: its
    code has 6 to 24 capital letters and digits, found in the first cell
    of some row of the table, and its reward lies between 1 and 9999. *)
Theorem fetch_codes_entries (today : date) (o : get_outcome)
    (codes : list (string * Z)) (c : string) (p : Z) :
  fetch_codes today o = Ok codes ->
  In (c, p) codes ->
  (6 <= String.length c <= 24)%nat /\
  all_chars is_code_char c = true /\
  1 <= p <= 9999 /\
  exists st rows cells,
    o = Response st (mkpage (Some rows)) /\ In cells rows /\
    match_code (nth 0 cells "") = Some c /\
    find_poly (nth 1 cells "") = Some p.
Proof.
  intros Hf Hin.
  destruct (fetch_codes_cases _ _ _ Hf) as [->|(st & rows & -> & ->)];
    [destruct Hin|].
  apply aggregate_from_input, collect_in in Hin.
  destruct Hin as (cells & Hcells & Hp). unfold process_row in Hp.
  destruct (row_fields today cells) as [[[c' e] p']|] eqn:E; [|discriminate].
  injection Hp as -> ->.
  destruct (row_fields_inv _ _ _ _ _ E) as (Hc & _ & _ & _ & Hpoly & Hpos).
  destruct (match_code_inv _ _ Hc) as (_ & _ & _ & Hlen & Hall).
  destruct (find_poly_inv _ _ Hpoly) as (v & Hv & Hd & -> & _).
  pose proof (int_digits_bound v Hd) as Hb.
  split; [exact Hlen|]. split; [exact Hall|]. split; [lia|].
  now exists st, rows, cells.
Qed.

Lemma fetch_codes_entries_witness :
  (fetch_codes sample_today (Response 200 (mkpage (Some sample_rows))) =
     Ok [("ABCDEF123", 500)] /\
   In ("ABCDEF123", 500) [("ABCDEF123", 500)]) /\
  (6 <= String.length "ABCDEF123" <= 24)%nat /\
  all_chars is_code_char "ABCDEF123" = true /\
  1 <= 500 <= 9999 /\
  exists st rows cells,
    Response 200 (mkpage (Some sample_rows)) =
      Response st (mkpage (Some rows)) /\ In cells rows /\
    match_code (nth 0 cells "") = Some "ABCDEF123" /\
    find_poly (nth 1 cells "") = Some 500.
Proof.
  split.
  - split; [vm_compute; reflexivity | now left].
  - apply (fetch_codes_entries sample_today
             (Response 200 (mkpage (Some sample_rows)))
             [("ABCDEF123", 500)] "ABCDEF123" 500).
    + vm_compute. reflexivity.
    + now left.
Defined.

(** ** More on [parse_date] *)

Lemma date_new_valid (y m d : Z) (dt : date) :
  date_new y m d = Ok dt -> valid_date dt.
Proof.
  unfold date_new, valid_date.
  destruct (Z.leb_spec 1 y), (Z.leb_spec y 9999), (Z.leb_spec 1 m),
    (Z.leb_spec m 12), (Z.leb_spec 1 d), (Z.leb_spec d (days_in_month y m));
    cbn [andb]; try discriminate.
  intros [= <-]. cbn [year month day]. lia.
Qed.

Lemma strptime_valid (data fmt : string) (dt : date) :
  Strptime.strptime data fmt = Ok dt -> valid_date dt.
Proof.
  unfold Strptime.strptime.
  destruct (re_match _ data) as [[rest g]|]; [|discriminate].
  destruct (negb _); [discriminate|]. apply date_new_valid.
Qed.

Lemma try_formats_valid (txt_clean : string) (fmts : list string) (dt : date) :
  try_formats txt_clean fmts = OnDate dt -> valid_date dt.
Proof.
  induction fmts as [|fmt fmts IH]; cbn [try_formats]; [discriminate|].
  destruct (Strptime.strptime txt_clean fmt) as [d|e] eqn:E; [|exact IH].
  intros [= <-]. exact (strptime_valid _ _ _ E).
Qed.

(** X5. A date that [parse_date] returns is a calendar date: the year is
    from 1 to 9999, the month from 1 to 12, and the day exists in that
    month of that year. *)
Theorem parse_date_calendar_date (txt : string) (d : date) :
  parse_date txt = OnDate d -> valid_date d.
Proof.
  unfold parse_date.
  destruct (String.eqb txt ""); [discriminate|].
  destruct (contains "expired" (lower txt)); [discriminate|].
  destruct (existsb _ no_expiry_markers); [discriminate|].
  apply try_formats_valid.
Qed.

Lemma parse_date_calendar_date_witness :
  parse_date "Feb 29, 2028" = OnDate (mkdate 2028 2 29) /\
  valid_date (mkdate 2028 2 29).
Proof.
  split; [vm_compute; reflexivity|].
  apply (parse_date_calendar_date "Feb 29, 2028"). vm_compute. reflexivity.
Defined.

(** X6. A text in which one of the six no-expiry markers occurs, in any
    letter case, and "expired" does not, is classified [NoExpiry]; the
    date formats are not tried on it. *)
Theorem parse_date_marker_any_case (pre mid post : string) :
  In (lower mid) no_expiry_markers ->
  contains "expired" (lower (pre ++ mid ++ post)) = false ->
  parse_date (pre ++ mid ++ post) = NoExpiry.
Proof.
  intros Hm Hx. unfold parse_date.
  destruct (String.eqb (pre ++ mid ++ post) ""); [reflexivity|].
  rewrite Hx.
  assert (He : existsb (fun x => contains x (lower (pre ++ mid ++ post)))
                 no_expiry_markers = true).
  { apply existsb_exists. exists (lower mid). split; [exact Hm|].
    rewrite !lower_app. apply contains_app. }
  now rewrite He.
Qed.

Lemma parse_date_marker_any_case_witness :
  (In (lower "TBD") no_expiry_markers /\
   contains "expired" (lower ("January 1, 2099 (" ++ "TBD" ++ ")")) = false) /\
  parse_date ("January 1, 2099 (" ++ "TBD" ++ ")") = NoExpiry.
Proof.
  split.
  - split; [vm_compute; tauto | vm_compute; reflexivity].
  - apply (parse_date_marker_any_case "January 1, 2099 (" "TBD" ")").
    + vm_compute. tauto.
    + vm_compute. reflexivity.
Defined.

(** ** Rows with missing cells *)

Lemma find_poly_empty : find_poly "" = None.
Proof. reflexivity. Qed.

Lemma parse_date_empty : parse_date "" = NoExpiry.
Proof. reflexivity. Qed.

(** X7. What the loop does with short and long rows: a row with no cell
    or with one cell appends nothing; a row with two cells is read as if
    its expiry cell were empty, so the current date plays no part; and
    cells after the third are not looked at. *)
Theorem rows_with_missing_cells (today : date) :
  process_row today [] = None /\
  (forall code_txt, process_row today [code_txt] = None) /\
  (forall code_txt reward_txt,
     process_row today [code_txt; reward_txt] =
     process_row today [code_txt; reward_txt; ""]) /\
  (forall today' code_txt reward_txt,
     process_row today [code_txt; reward_txt] =
     process_row today' [code_txt; reward_txt]) /\
  (forall code_txt reward_txt expiry_txt more,
     process_row today (code_txt :: reward_txt :: expiry_txt :: more) =
     process_row today [code_txt; reward_txt; expiry_txt]).
Proof.
  split; [reflexivity|]. split; [|split; [|split]].
  - intros code_txt. unfold process_row, row_fields. cbn [nth].
    rewrite find_poly_empty, parse_date_empty. cbn [is_expired before].
    now destruct (match_code code_txt).
  - reflexivity.
  - intros today' code_txt reward_txt. unfold process_row, row_fields.
    cbn [nth]. rewrite parse_date_empty. reflexivity.
  - reflexivity.
Qed.

(** ** The current date *)

Lemma date_ltb_spec (a b : date) :
  date_ltb a b = true <->
  year a < year b \/
  (year a = year b /\
   (month a < month b \/ (month a = month b /\ day a < day b))).
Proof.
  unfold date_ltb.
  destruct (Z.ltb_spec (year a) (year b)), (Z.eqb_spec (year a) (year b)),
    (Z.ltb_spec (month a) (month b)), (Z.eqb_spec (month a) (month b)),
    (Z.ltb_spec (day a) (day b)); cbn [orb andb];
    split; intros; try discriminate; try reflexivity; lia.
Qed.

Lemma date_ltb_false (a b : date) :
  date_ltb a b = false <->
  ~ (year a < year b \/
     (year a = year b /\
      (month a < month b \/ (month a = month b /\ day a < day b)))).
Proof.
  rewrite <- date_ltb_spec. destruct (date_ltb a b); split; congruence.
Qed.

Lemma before_earlier (today earlier : date) (e : expiry) :
  date_ltb today earlier = false ->
  before today e = false -> before earlier e = false.
Proof.
  destruct e as [| |d]; cbn [before]; try reflexivity.
  rewrite !date_ltb_false. lia.
Qed.

Lemma process_row_earlier (today earlier : date) (cells : row)
    (cp : string * Z) :
  date_ltb today earlier = false ->
  process_row today cells = Some cp -> process_row earlier cells = Some cp.
Proof.
  intros Hle. unfold process_row.
  destruct (row_fields today cells) as [[[c e] p]|] eqn:E; [|discriminate].
  intros [= <-].
  destruct (row_fields_inv _ _ _ _ _ E) as (Hc & -> & He & Hb & Hp & Hpos).
  rewrite (row_fields_kept earlier cells c p Hc He
             (before_earlier _ _ _ Hle Hb) Hp Hpos).
  reflexivity.
Qed.

(** X8. Going back in time loses nothing: on a date not later than
    [today], every pair the loop collects on [today] is collected too,
    and every code in the result of [today] is in the result of the
    earlier date. *)
Theorem earlier_date_keeps_codes (today earlier : date) (rows : list row) :
  date_ltb today earlier = false ->
  (forall cp, In cp (collect today rows) -> In cp (collect earlier rows)) /\
  (forall c, In c (map fst (aggregate (collect today rows))) ->
             In c (map fst (aggregate (collect earlier rows)))).
Proof.
  intros Hle.
  assert (Hcol : forall cp, In cp (collect today rows) ->
                            In cp (collect earlier rows)).
  { intros cp Hin. apply collect_in in Hin.
    destruct Hin as (cells & Hcells & Hp). apply collect_in.
    exists cells. split; [exact Hcells|].
    exact (process_row_earlier _ _ _ _ Hle Hp). }
  split; [exact Hcol|].
  intros c Hin. apply in_map_iff in Hin.
  destruct Hin as ([c' p] & <- & Hin). cbn [fst].
  apply aggregate_from_input in Hin.
  exact (aggregate_has_code _ _ _ (Hcol _ Hin)).
Qed.

Lemma earlier_date_keeps_codes_witness :
  date_ltb sample_today (mkdate 2026 1 1) = false /\
  (forall cp, In cp (collect sample_today sample_rows) ->
              In cp (collect (mkdate 2026 1 1) sample_rows)) /\
  (forall c, In c (map fst (aggregate (collect sample_today sample_rows))) ->
             In c (map fst (aggregate (collect (mkdate 2026 1 1) sample_rows)))).
Proof.
  split; [reflexivity|].
  apply (earlier_date_keeps_codes sample_today (mkdate 2026 1 1) sample_rows).
  reflexivity.
Defined.

(** ** The aggregator, again *)

Lemma keep_max_fold_nodup (l : list (string * Z)) (d : dict) :
  NoDup (map fst (d ++ l)%list) -> fold_left keep_max l d = (d ++ l)%list.
Proof.
  revert d. induction l as [|[k v] l IH]; intros d Hnd; cbn [fold_left].
  - now rewrite app_nil_r.
  - assert (Hk : dict_get d k = None).
    { apply dict_get_none. intros Hin.
      rewrite map_app in Hnd. cbn [map fst] in Hnd.
      apply NoDup_remove_2 in Hnd. apply Hnd, in_or_app. now left. }
    unfold keep_max at 2. rewrite Hk, (dict_set_new d k v Hk), IH.
    + now rewrite <- app_assoc.
    + now rewrite <- app_assoc.
Qed.

Lemma sorted_id {A : Type} (key : A -> Z) (l : list A) :
  StronglySorted (key_le key) l -> sorted key l = l.
Proof.
  induction 1 as [|x l Hl IH Hx]; cbn [sorted]; [reflexivity|].
  rewrite IH. destruct l as [|y l]; [reflexivity|]. cbn [insert_by].
  inversion Hx as [|? ? Hxy _]; subst. unfold key_le in Hxy.
  destruct (Z.leb_spec (key x) (key y)); [reflexivity | lia].
Qed.

Lemma aggregate_key_sorted (codes : list (string * Z)) :
  StronglySorted (key_le (fun x : string * Z => - snd x)) (aggregate codes).
Proof.
  apply sorted_sorted.
Qed.

(** X9. Aggregating twice changes nothing: the result of the aggregator
    is a list it leaves as it is. *)
Theorem aggregate_idempotent (codes : list (string * Z)) :
  aggregate (aggregate codes) = aggregate codes.
Proof.
  unfold aggregate at 1. unfold remove_duplicates.
  rewrite (keep_max_fold_nodup (aggregate codes) []).
  - apply sorted_id, aggregate_key_sorted.
  - apply aggregate_nodup.
Qed.

(** X10. The order of the rows decides only the order of equal rewards:
    two candidate lists with the same pairs in different orders have
    results with the same entries. *)
Theorem aggregate_permutation (codes codes' : list (string * Z)) :
  Permutation codes codes' ->
  Permutation (aggregate codes) (aggregate codes').
Proof.
  intros Hp. apply NoDup_Permutation.
  - eapply NoDup_map_inv, aggregate_nodup.
  - eapply NoDup_map_inv, aggregate_nodup.
  - intros [c p]. rewrite !aggregate_in, !max_reward_spec. split.
    + intros [Hin Hmax]. split; [now apply (Permutation_in _ Hp)|].
      intros q Hq. apply Hmax.
      now apply (Permutation_in _ (Permutation_sym Hp)).
    + intros [Hin Hmax]. split;
        [now apply (Permutation_in _ (Permutation_sym Hp))|].
      intros q Hq. apply Hmax. now apply (Permutation_in _ Hp).
Qed.

Lemma aggregate_permutation_witness :
  Permutation [("AAAAAA", 10); ("BBBBBB", 10); ("AAAAAA", 30)]
              [("BBBBBB", 10); ("AAAAAA", 30); ("AAAAAA", 10)] /\
  Permutation
    (aggregate [("AAAAAA", 10); ("BBBBBB", 10); ("AAAAAA", 30)])
    (aggregate [("BBBBBB", 10); ("AAAAAA", 30); ("AAAAAA", 10)]).
Proof.
  assert (H : Permutation [("AAAAAA", 10); ("BBBBBB", 10); ("AAAAAA", 30)]
                          [("BBBBBB", 10); ("AAAAAA", 30); ("AAAAAA", 10)]).
  { eapply perm_trans; [apply perm_swap|]. apply perm_skip, perm_swap. }
  split; [exact H|].
  exact (aggregate_permutation _ _ H).
Defined.

(** ** The cache across presses *)

Lemma filter_none {A : Type} (f : A -> bool) (l : list A) :
  (forall x, In x l -> f x = false) -> filter f l = [].
Proof.
  induction l as [|x l IH]; intros H; cbn [filter]; [reflexivity|].
  rewrite (H x (or_introl eq_refl)). apply IH.
  intros y Hy. apply H. now right.
Qed.

Lemma new_codes_of_self (codes : list (string * Z)) :
  new_codes_of codes codes = [].
Proof.
  rewrite new_codes_of_filter. apply filter_none.
  intros c Hin. unfold dict_mem.
  destruct (dict_get codes c) eqn:E; [reflexivity|].
  apply dict_get_none in E. contradiction.
Qed.

(** X11. Pressing the button again on the same page finds nothing new:
    the second press returns the same codes, no new code, and leaves the
    cache file as the first press wrote it. *)
Theorem second_press_nothing_new (today : date) (o : get_outcome)
    (f : cache_file) (pr : press) :
  on_fetch today o f = Ok pr ->
  on_fetch today o (file_after pr) =
    Ok (mkpress (codes_of pr) [] (file_after pr)).
Proof.
  unfold on_fetch. destruct (fetch_codes today o) as [codes|e] eqn:Hf;
    cbn [bind]; [|discriminate].
  pose proof (fetch_codes_nodup _ _ _ Hf) as Hnd.
  unfold diff_and_save, save_cache.
  destruct (load_cache f) as [cached|e]; cbn [bind]; [|discriminate].
  intros [= <-]. cbn [file_after codes_of].
  rewrite (dict_of_nodup codes Hnd). cbn [load_cache path_exists json_load bind].
  now rewrite new_codes_of_self.
Qed.

Lemma second_press_nothing_new_witness :
  on_fetch sample_today (Response 200 (mkpage (Some cached_rows))) Missing =
    Ok (mkpress [("BBBBBB", 20); ("AAAAAA", 10)] ["BBBBBB"; "AAAAAA"]
          (Holding [("BBBBBB", 20); ("AAAAAA", 10)])) /\
  on_fetch sample_today (Response 200 (mkpage (Some cached_rows)))
    (Holding [("BBBBBB", 20); ("AAAAAA", 10)]) =
    Ok (mkpress [("BBBBBB", 20); ("AAAAAA", 10)] []
          (Holding [("BBBBBB", 20); ("AAAAAA", 10)])).
Proof.
  split; [vm_compute; reflexivity|].
  apply (second_press_nothing_new sample_today
           (Response 200 (mkpage (Some cached_rows))) Missing
           (mkpress [("BBBBBB", 20); ("AAAAAA", 10)] ["BBBBBB"; "AAAAAA"]
              (Holding [("BBBBBB", 20); ("AAAAAA", 10)]))).
  vm_compute. reflexivity.
Defined.

(** X12. A fetch that returns no code empties the cache: whatever the
    file held, it holds the empty mapping afterwards, and the next press
    reports every code it fetches as new. *)
Theorem empty_fetch_empties_cache (today : date) (o : get_outcome)
    (f : cache_file) (cached : dict) :
  fetch_codes today o = Ok [] ->
  load_cache f = Ok cached ->
  on_fetch today o f = Ok (mkpress [] [] (Holding [])) /\
  (forall today' o' pr',
     on_fetch today' o' (Holding []) = Ok pr' ->
     new_codes pr' = map fst (codes_of pr')).
Proof.
  intros Hf Hl. split.
  - unfold on_fetch, diff_and_save. rewrite Hf. cbn [bind]. rewrite Hl.
    reflexivity.
  - intros today' o' pr'. unfold on_fetch, diff_and_save.
    destruct (fetch_codes today' o') as [codes|e]; cbn [bind]; [|discriminate].
    cbn [load_cache path_exists json_load bind]. intros [= <-].
    cbn [new_codes codes_of]. apply new_codes_of_empty.
Qed.

Lemma empty_fetch_empties_cache_witness :
  (fetch_codes sample_today TransportFailure = Ok [] /\
   load_cache (Holding [("ABCDEF123", 500)]) = Ok [("ABCDEF123", 500)]) /\
  on_fetch sample_today TransportFailure (Holding [("ABCDEF123", 500)]) =
    Ok (mkpress [] [] (Holding [])) /\
  (forall today' o' pr',
     on_fetch today' o' (Holding []) = Ok pr' ->
     new_codes pr' = map fst (codes_of pr')).
Proof.
  split; [split; reflexivity|].
  apply (empty_fetch_empties_cache sample_today TransportFailure
           (Holding [("ABCDEF123", 500)]) [("ABCDEF123", 500)]);
    reflexivity.
Defined.


(** ** The display *)

Lemma strongly_sorted_snoc {A : Type} (R : A -> A -> Prop) (l : list A)
    (x : A) :
  StronglySorted R l -> Forall (fun y => R y x) l ->
  StronglySorted R (l ++ [x]).
Proof.
  induction 1 as [|y l Hl IH Hy]; intros Hx; cbn [app].
  - repeat constructor.
  - inversion Hx as [|? ? Hyx Hlx]; subst.
    constructor; [now apply IH|].
    apply Forall_app. split; [exact Hy | now constructor].
Qed.

Lemma strongly_sorted_rev {A : Type} (R : A -> A -> Prop) (l : list A) :
  StronglySorted R l -> StronglySorted (fun a b => R b a) (rev l).
Proof.
  induction 1 as [|x l Hl IH Hx]; cbn [rev]; [constructor|].
  apply strongly_sorted_snoc; [exact IH|].
  apply Forall_rev. exact Hx.
Qed.

Lemma sorted_reverse_perm {A : Type} (key : A -> Z) (l : list A) :
  Permutation (sorted_reverse key l) l.
Proof.
  unfold sorted_reverse.
  rewrite <- Permutation_rev, sorted_perm, <- Permutation_rev. reflexivity.
Qed.

Lemma sorted_reverse_sorted {A : Type} (key : A -> Z) (l : list A) :
  StronglySorted (fun a b => key b <= key a) (sorted_reverse key l).
Proof.
  unfold sorted_reverse.
  apply (strongly_sorted_rev (key_le key)), sorted_sorted.
Qed.

Lemma sorted_reverse_stable {A : Type} (key : A -> Z) (v : Z) (l : list A) :
  filter (fun y => key y =? v) (sorted_reverse key l) =
  filter (fun y => key y =? v) l.
Proof.
  unfold sorted_reverse.
  now rewrite filter_rev, sorted_stable, filter_rev, rev_involutive.
Qed.

Lemma sorted_reverse_id {A : Type} (key : A -> Z) (l : list A) :
  StronglySorted (fun a b => key b <= key a) l -> sorted_reverse key l = l.
Proof.
  intros H. unfold sorted_reverse.
  rewrite sorted_id; [apply rev_involutive|].
  apply (strongly_sorted_rev (fun a b => key b <= key a)), H.
Qed.

Lemma aggregate_desc (codes : list (string * Z)) :
  StronglySorted (fun a b => snd b <= snd a) (aggregate codes).
Proof.
  eapply strongly_sorted_weaken; [|apply aggregate_key_sorted].
  unfold key_le. intros a b Hab. lia.
Qed.

Lemma fetch_codes_desc (today : date) (o : get_outcome)
    (codes : list (string * Z)) :
  fetch_codes today o = Ok codes ->
  StronglySorted (fun a b => snd b <= snd a) codes.
Proof.
  intros Hf.
  destruct (fetch_codes_cases _ _ _ Hf) as [->|(st & rows & _ & ->)].
  - constructor.
  - apply aggregate_desc.
Qed.

Lemma display_perm (sort_order : string) (codes : list (string * Z)) :
  Permutation (display sort_order codes) codes.
Proof.
  unfold display. destruct (String.eqb sort_order "Descending").
  - apply sorted_reverse_perm.
  - apply sorted_perm.
Qed.

(** X14. With the order "Descending" the fetched codes are shown in the
    order [fetch_codes] returned them, and in either order the keys of
    the "Copy" buttons are distinct. *)
Theorem display_of_fetched_codes (today : date) (o : get_outcome)
    (codes : list (string * Z)) :
  fetch_codes today o = Ok codes ->
  display "Descending" codes = codes /\
  (forall sort_order, NoDup (copy_keys sort_order codes)).
Proof.
  intros Hf. split.
  - unfold display. cbn [String.eqb Ascii.eqb Bool.eqb andb].
    change (String.eqb "Descending" "Descending") with true. cbv iota.
    apply sorted_reverse_id. exact (fetch_codes_desc _ _ _ Hf).
  - intros sort_order. unfold copy_keys.
    eapply Permutation_NoDup.
    + apply Permutation_map. symmetry. apply display_perm.
    + exact (fetch_codes_nodup _ _ _ Hf).
Qed.

Lemma display_of_fetched_codes_witness :
  fetch_codes sample_today (Response 200 (mkpage (Some cached_rows))) =
    Ok [("BBBBBB", 20); ("AAAAAA", 10)] /\
  display "Descending" [("BBBBBB", 20); ("AAAAAA", 10)] =
    [("BBBBBB", 20); ("AAAAAA", 10)] /\
  (forall sort_order,
     NoDup (copy_keys sort_order [("BBBBBB", 20); ("AAAAAA", 10)])).
Proof.
  split; [vm_compute; reflexivity|].
  apply (display_of_fetched_codes sample_today
           (Response 200 (mkpage (Some cached_rows)))).
  vm_compute. reflexivity.
Defined.

(** X15. Whatever list it is given, the display shows the same entries,
    by descending reward for "Descending" and by ascending reward for
    any other order, and entries of equal reward keep the order they had
    in the list. *)
Theorem display_sorted_stable (sort_order : string)
    (codes : list (string * Z)) :
  Permutation (display sort_order codes) codes /\
  (forall v, filter (fun x => snd x =? v) (display sort_order codes) =
             filter (fun x => snd x =? v) codes) /\
  (if String.eqb sort_order "Descending"
   then StronglySorted (fun a b => snd b <= snd a) (display sort_order codes)
   else StronglySorted (fun a b => snd a <= snd b) (display sort_order codes)).
Proof.
  split; [apply display_perm|]. unfold display.
  destruct (String.eqb sort_order "Descending"); split.
  - intros v. apply sorted_reverse_stable.
  - apply sorted_reverse_sorted.
  - intros v. apply sorted_stable.
  - apply (sorted_sorted snd).
Qed.

(** ** The result of a fetch, row by row *)

(** X16. When the request succeeds and the table is there, the returned
    list is decided row by row: [(c, p)] is an entry exactly when some
    row appends [(c, p)] and no row appends a larger reward for [c]. *)
Theorem fetch_codes_by_rows (today : date) (st : Z) (rows : list row)
    (c : string) (p : Z) :
  ~ (400 <= st < 600) ->
  exists result,
    fetch_codes today (Response st (mkpage (Some rows))) = Ok result /\
    (In (c, p) result <->
     (exists cells, In cells rows /\ process_row today cells = Some (c, p)) /\
     (forall cells q, In cells rows ->
                      process_row today cells = Some (c, q) -> q <= p)).
Proof.
  intros Hst. exists (aggregate (collect today rows)). split.
  - apply fetch_codes_table.
    destruct (Z.leb_spec 400 st), (Z.ltb_spec st 600); try reflexivity. lia.
  - rewrite aggregate_in, max_reward_spec, collect_in. split.
    + intros [Hex Hmax]. split; [exact Hex|].
      intros cells q Hcells Hq. apply Hmax, collect_in. now exists cells.
    + intros [Hex Hmax]. split; [exact Hex|].
      intros q Hq. apply collect_in in Hq.
      destruct Hq as (cells & Hcells & Hq). exact (Hmax cells q Hcells Hq).
Qed.

Lemma fetch_codes_by_rows_witness :
  ~ (400 <= 200 < 600) /\
  exists result,
    fetch_codes sample_today (Response 200 (mkpage (Some sample_rows))) =
      Ok result /\
    (In ("ABCDEF123", 500) result <->
     (exists cells, In cells sample_rows /\
                    process_row sample_today cells = Some ("ABCDEF123", 500)) /\
     (forall cells q, In cells sample_rows ->
                      process_row sample_today cells = Some ("ABCDEF123", q) ->
                      q <= 500)).
Proof.
  split; [lia|].
  apply (fetch_codes_by_rows sample_today 200 sample_rows "ABCDEF123" 500).
  lia.
Defined.

(** ** Letter case of the code cell *)

Lemma upper_char_upper (c : ascii) : upper_char (upper_char c) = upper_char c.
Proof.
  destruct c as [[] [] [] [] [] [] [] []]; reflexivity.
Qed.

Lemma upper_char_lower (c : ascii) : upper_char (lower_char c) = upper_char c.
Proof.
  destruct c as [[] [] [] [] [] [] [] []]; reflexivity.
Qed.

Lemma upper_upper (s : string) : upper (upper s) = upper s.
Proof.
  induction s as [|c s IH]; simpl; [reflexivity|].
  now rewrite upper_char_upper, IH.
Qed.

Lemma upper_lower (s : string) : upper (lower s) = upper s.
Proof.
  induction s as [|c s IH]; simpl; [reflexivity|].
  now rewrite upper_char_lower, IH.
Qed.

(** X17. The letter case of the first cell does not matter: the cell
    text, its lower-case form and its upper-case form give the same
    code, and so the same row outcome. *)
Theorem match_code_ignores_case (today : date) (code_txt : string)
    (rest : row) :
  match_code (lower code_txt) = match_code code_txt /\
  match_code (upper code_txt) = match_code code_txt /\
  process_row today (lower code_txt :: rest) =
    process_row today (code_txt :: rest).
Proof.
  assert (Hl : match_code (lower code_txt) = match_code code_txt)
    by (unfold match_code; now rewrite upper_lower).
  split; [exact Hl|]. split.
  - unfold match_code. now rewrite upper_upper.
  - unfold process_row, row_fields. cbn [nth]. now rewrite Hl.
Qed.
